(** * voicedeck-app: the report cache of [src/lib/impact-reports.ts]

    A shallow embedding of the module that merges hypercert claims with
    editorial (CMS) content, caches the merged reports in memory and
    tracks their funding.

    - JavaScript numbers are binary64 floats: Rocq's primitive [float].
    - [Report] objects and arrays live on a heap, since the module hands
      out references to them and mutates [fundedSoFar] in place.
    - The remote collaborators (claim indexer, metadata store, CMS,
      funding ledger) are a record of answers; every request made to them
      is logged.
    - The order in which the responses of the concurrent per-claim
      lookups arrive is a parameter of [fetchReports] (a schedule). *)

From Stdlib Require Import String Ascii ZArith List Floats.
From stdpp Require Import base option list relations.
Import ListNotations.
Open Scope string_scope.

(** ** JavaScript values *)

(** Editorial fields that the module copies without looking inside. *)
#[warnings="-register-all"]
Inductive JsValue :=
| JsUndefined
| JsNull
| JsBoolean (b : bool)
| JsNumber (n : float)
| JsString (s : string)
| JsArray (items : list JsValue).

(** What a [throw] carries. [Foreign] is a value thrown by a collaborator,
    known here only through its string conversion. *)
Inductive Thrown :=
| Error (message : string)
| TypeError (message : string)
| Foreign (text : string).

(** [`${error}`]: [Error.prototype.toString] gives the name alone when the
    message is empty. *)
Definition toString (e : Thrown) : string :=
  match e with
  | Error "" => "Error"
  | Error m => "Error: " ++ m
  | TypeError "" => "TypeError"
  | TypeError m => "TypeError: " ++ m
  | Foreign t => t
  end.

(** A settled promise. *)
Inductive settled (A : Type) :=
| Fulfilled (a : A)
| Rejected (e : Thrown).
Arguments Fulfilled {A} a.
Arguments Rejected {A} e.

(** ** [Number(string)]

    ECMAScript's StringToNumber on ASCII text: optional white space, then
    a signed decimal literal (fraction and exponent allowed), [Infinity],
    or an unsigned [0x]/[0o]/[0b] integer; the empty string is [0] and
    anything else is [NaN]. The mathematical value is rounded to the
    nearest double, ties to even. *)
Module JsNumber.

(** The white space of ASCII strings: tab, line feed, vertical tab, form
    feed, carriage return and space. The white space beyond ASCII that
    JavaScript also trims (U+00A0, U+FEFF, U+2028, U+2029 and the Unicode
    space separators) is not covered. *)
Definition isWhiteSpace (c : ascii) : bool :=
  match nat_of_ascii c with
  | 9 | 10 | 11 | 12 | 13 | 32 => true
  | _ => false
  end.

Fixpoint dropWhiteSpace (l : list ascii) : list ascii :=
  match l with
  | c :: l' => if isWhiteSpace c then dropWhiteSpace l' else l
  | [] => []
  end.

Definition trim (l : list ascii) : list ascii :=
  rev (dropWhiteSpace (rev (dropWhiteSpace l))).

Definition digitValue (c : ascii) : option Z :=
  let n := Z.of_nat (nat_of_ascii c) in
  if (48 <=? n)%Z && (n <=? 57)%Z then Some (n - 48)%Z
  else if (97 <=? n)%Z && (n <=? 102)%Z then Some (n - 87)%Z
  else if (65 <=? n)%Z && (n <=? 70)%Z then Some (n - 55)%Z
  else None.

(** Reads the longest run of digits of [base]: the accumulated value, the
    number of digits read and the rest of the input. *)
Fixpoint digits (base : Z) (l : list ascii) (acc : Z) (n : nat)
  : Z * nat * list ascii :=
  match l with
  | c :: l' =>
      match digitValue c with
      | Some d =>
          if (d <? base)%Z then digits base l' (acc * base + d)%Z (S n)
          else (acc, n, l)
      | None => (acc, n, l)
      end
  | [] => (acc, n, [])
  end.

Definition sign (l : list ascii) : bool * list ascii :=
  match l with
  | "-"%char :: l' => (true, l')
  | "+"%char :: l' => (false, l')
  | _ => (false, l)
  end.

(** StrUnsignedDecimalLiteral without [Infinity]: mantissa [m] and decimal
    exponent [e], for the value [m * 10^e]. *)
Definition unsignedDecimal (l : list ascii) : option (Z * Z) :=
  let '(ip, n1, r1) := digits 10 l 0 0 in
  let '(m, n2, r2) :=
    match r1 with
    | "."%char :: r => digits 10 r ip 0
    | _ => (ip, 0, r1)
    end in
  if (n1 + n2 =? 0)%nat then None
  else
    match r2 with
    | [] => Some (m, - Z.of_nat n2)%Z
    | c :: r3 =>
        if Ascii.eqb c "e" || Ascii.eqb c "E" then
          let '(neg, r4) := sign r3 in
          let '(x, n3, r5) := digits 10 r4 0 0 in
          match n3, r5 with
          | S _, [] => Some (m, (if neg then - x else x) - Z.of_nat n2)%Z
          | _, _ => None
          end
        else None
    end.

Definition ofZ (z : Z) : float :=
  SF2Prim (binary_normalize prec emax z 0 false).

(** The double nearest to [n / d], for [0 <= n] and [0 < d]: the quotient
    is taken with more than 64 significant bits and one sticky bit. *)
Definition ofRatio (n d : Z) : float :=
  let s := (Z.log2 d + 66)%Z in
  let q := (n * 2 ^ s / d)%Z in
  let sticky := if (n * 2 ^ s mod d =? 0)%Z then 0%Z else 1%Z in
  SF2Prim (binary_normalize prec emax (2 * q + sticky) (- (s + 1)) false).

Definition ofDecimal (m e : Z) : float :=
  if (0 <=? e)%Z then ofZ (m * 10 ^ e) else ofRatio m (10 ^ (- e)).

Definition radixInteger (base : Z) (l : list ascii) : float :=
  match digits base l 0 0 with
  | (v, S _, []) => ofZ v
  | _ => nan
  end.

Definition ofString (s : string) : float :=
  match trim (list_ascii_of_string s) with
  | [] => 0%float
  | "0"%char :: "x"%char :: l | "0"%char :: "X"%char :: l => radixInteger 16 l
  | "0"%char :: "o"%char :: l | "0"%char :: "O"%char :: l => radixInteger 8 l
  | "0"%char :: "b"%char :: l | "0"%char :: "B"%char :: l => radixInteger 2 l
  | l =>
      let '(neg, u) := sign l in
      let magnitude :=
        if String.eqb (string_of_list_ascii u) "Infinity" then infinity
        else match unsignedDecimal u with
             | Some (m, e) => ofDecimal m e
             | None => nan
             end in
      if neg then PrimFloat.opp magnitude else magnitude
  end.

End JsNumber.

Definition Number (s : string) : float := JsNumber.ofString s.

(** ** Data model *)

(** Modelled from the spec: the type [Claim] of [@/types] is not among
    the sources. A claim of the indexer is [{ id: string, uri: string }];
    its other fields are not read. *)
Module Claim.
Record t := mk { id : string; uri : string }.
End Claim.

(** The metadata document of the hypercerts SDK ([HypercertMetadata]),
    with the members the merge reads. The SDK declares [external_url],
    [properties] and [hypercert] optional, and so both members of an
    entry of [properties] and the [value] and [display_value] of a scope
    or time frame: these are options, [None] for [undefined]. *)
Module Property.
Record t := mk { trait_type : option string; value : option string }.
End Property.

Module Scope.
Record t := mk { value : option (list string); display_value : option string }.
End Scope.

Module Timeframe.
Record t := mk { display_value : option string }.
End Timeframe.

Module Claimdata.
Record t := mk {
  work_scope : Scope.t;
  work_timeframe : Timeframe.t;
  impact_scope : Scope.t;
  impact_timeframe : Timeframe.t;
  contributors : Scope.t
}.
End Claimdata.

Module Metadata.
Record t := mk {
  name : string;
  description : string;
  image : string;
  external_url : option string;
  properties : option (list Property.t);
  hypercert : option Claimdata.t
}.
End Metadata.

(** Modelled from the spec: the type [CMSReport] of [@/types] is not
    among the sources. An editorial record has the fields below, is keyed
    by [title], is looked up by [slug] and gives [total_cost] as a string;
    the other fields are copied as they are. *)
Module CMSReport.
Record t := mk {
  id : JsValue;
  status : JsValue;
  date_created : JsValue;
  title : string;
  slug : string;
  story : JsValue;
  bc_ratio : JsValue;
  villages_impacted : JsValue;
  people_impacted : JsValue;
  verified_by : JsValue;
  date_updated : JsValue;
  byline : JsValue;
  total_cost : string
}.
End CMSReport.

(** Modelled from the spec: the type [Report] of [@/types] is not among
    the sources. The fields are those of the object literal of
    [fetchReports], in its order. *)
Module Report.
Record t := mk {
  hypercertId : string;
  title : string;
  summary : string;
  image : string;
  originalReportUrl : option string;
  state : option string;
  category : option string;
  workTimeframe : option string;
  impactScope : option string;
  impactTimeframe : option string;
  contributors : option (list string);
  cmsId : JsValue;
  status : JsValue;
  dateCreated : JsValue;
  slug : string;
  story : JsValue;
  bcRatio : JsValue;
  villagesImpacted : JsValue;
  peopleImpacted : JsValue;
  verifiedBy : JsValue;
  dateUpdated : JsValue;
  byline : JsValue;
  totalCost : float;
  fundedSoFar : float
}.

(** [report.fundedSoFar += amount] *)
Definition addFunded (amount : float) (r : t) : t :=
  mk (hypercertId r) (title r) (summary r) (image r) (originalReportUrl r)
     (state r) (category r) (workTimeframe r) (impactScope r)
     (impactTimeframe r) (contributors r) (cmsId r) (status r)
     (dateCreated r) (slug r) (story r) (bcRatio r) (villagesImpacted r)
     (peopleImpacted r) (verifiedBy r) (dateUpdated r) (byline r)
     (totalCost r) (fundedSoFar r + amount)%float.
End Report.

(** ** Collaborators and module state *)

(** The answers of the remote collaborators: the claim indexer
    ([indexer.claimsByOwner]), the metadata store ([storage.getMetadata])
    and the two functions of [./directus], which is not among the sources
    and is taken as given. A collaborator answers a given request the same
    way throughout. *)
Record Remote := {
  claimsByOwner : string -> settled (list Claim.t);
  getMetadata : string -> settled Metadata.t;
  getCMSReports : settled (list CMSReport.t);
  getFundedAmountByHCId : string -> settled float
}.

(** A request sent to a collaborator. *)
Inductive Call :=
| ClaimsByOwner (ownerAddress : string)
| GetMetadata (claimUri : string)
| GetCMSReports
| GetFundedAmountByHCId (hypercertId : string).

(** References to [Report] objects and to arrays of them: positions in the
    two heaps. *)
Abbreviation rloc := nat (only parsing).
Abbreviation aloc := nat (only parsing).

Record State := mkState {
  HC_OWNER_ADDRESS : option string;  (* process.env.HC_OWNER_ADDRESS *)
  reports : option aloc;             (* let reports: Report[] | null *)
  hypercertClient : bool;            (* whether the singleton client exists *)
  objects : list Report.t;           (* heap of Report objects *)
  arrays : list (list rloc);         (* heap of arrays *)
  calls : list Call                  (* requests sent so far, newest first *)
}.

(** The module as loaded: nothing cached, nothing allocated. *)
Definition initial (env : option string) : State :=
  mkState env None false [] [] [].

(** ** Computations: promises over the module state *)

Definition M (A : Type) : Type := State -> settled A * State.

Definition ret {A} (a : A) : M A := fun st => (Fulfilled a, st).
Definition throw {A} (e : Thrown) : M A := fun st => (Rejected e, st).

Definition bind {A B} (m : M A) (k : A -> M B) : M B :=
  fun st =>
    match m st with
    | (Fulfilled a, st') => k a st'
    | (Rejected e, st') => (Rejected e, st')
    end.

(** [try { m } catch (error) { h error }] *)
Definition catch {A} (m : M A) (h : Thrown -> M A) : M A :=
  fun st =>
    match m st with
    | (Fulfilled a, st') => (Fulfilled a, st')
    | (Rejected e, st') => h e st'
    end.

Declare Scope js_scope.
Delimit Scope js_scope with js.
Notation "x <- m ;; k" := (bind m (fun x => k))
  (at level 100, m at next level, right associativity) : js_scope.
Notation "m ;; k" := (bind m (fun _ => k))
  (at level 100, right associativity) : js_scope.
Open Scope js_scope.

Definition gets {A} (f : State -> A) : M A := fun st => (Fulfilled (f st), st).

(** The answer of a collaborator comes back. *)
Definition await {A} (r : settled A) : M A := fun st => (r, st).

(** An expression that may throw is evaluated. *)
Definition eval {A} (r : settled A) : M A := fun st => (r, st).

(** A request goes out to a collaborator. *)
Definition request (c : Call) : M unit :=
  fun st =>
    (Fulfilled tt,
     mkState (HC_OWNER_ADDRESS st) (reports st) (hypercertClient st)
             (objects st) (arrays st) (c :: calls st)).

Definition allocReport (r : Report.t) : M rloc :=
  fun st =>
    (Fulfilled (length (objects st)),
     mkState (HC_OWNER_ADDRESS st) (reports st) (hypercertClient st)
             (objects st ++ [r]) (arrays st) (calls st)).

Definition allocArray (items : list rloc) : M aloc :=
  fun st =>
    (Fulfilled (length (arrays st)),
     mkState (HC_OWNER_ADDRESS st) (reports st) (hypercertClient st)
             (objects st) (arrays st ++ [items]) (calls st)).

(** [reports = ...] *)
Definition setReports (a : aloc) : M unit :=
  fun st =>
    (Fulfilled tt,
     mkState (HC_OWNER_ADDRESS st) (Some a) (hypercertClient st)
             (objects st) (arrays st) (calls st)).

(** [getHypercertClient]: creates the singleton client on first use. *)
Definition getHypercertClient : M unit :=
  fun st =>
    (Fulfilled tt,
     mkState (HC_OWNER_ADDRESS st) (reports st) true
             (objects st) (arrays st) (calls st)).

(** The elements of an array and the object behind a reference. *)
Definition items (st : State) (a : aloc) : list rloc :=
  default [] (arrays st !! a).

Definition holds (st : State) (p : Report.t -> bool) (l : rloc) : bool :=
  match objects st !! l with
  | Some r => p r
  | None => false
  end.

(** ** The module's functions *)

(** The engine's message for reading a member of [undefined] (V8, on
    which the server runs). *)
Definition undefinedValueMessage : string :=
  "Cannot read properties of undefined (reading 'value')".

(** [metadata.properties?.[0].value]: the optional chain stops on an
    absent list only; on a list without first entry, [.value] is read off
    [undefined]. *)
Definition stateOf (metadata : Metadata.t) : settled (option string) :=
  match Metadata.properties metadata with
  | None => Fulfilled None
  | Some [] => Rejected (TypeError undefinedValueMessage)
  | Some (p :: _) => Fulfilled (Property.value p)
  end.

(** [metadata.hypercert?.work_scope.value?.[0]] *)
Definition categoryOf (metadata : Metadata.t) : option string :=
  match Metadata.hypercert metadata with
  | None => None
  | Some h =>
      match Scope.value (Claimdata.work_scope h) with
      | None => None
      | Some l => head l
      end
  end.

(** The object literal of [fetchReports], once [state] and the funded
    amount are known. *)
Definition mkReport (claim : Claim.t) (metadata : Metadata.t)
    (cmsReport : CMSReport.t) (state : option string) (funded : float)
  : Report.t :=
  let h := Metadata.hypercert metadata in
  Report.mk
    (Claim.id claim)
    (Metadata.name metadata)
    (Metadata.description metadata)
    (Metadata.image metadata)
    (Metadata.external_url metadata)
    state
    (categoryOf metadata)
    (h ≫= fun h => Timeframe.display_value (Claimdata.work_timeframe h))
    (h ≫= fun h => Scope.display_value (Claimdata.impact_scope h))
    (h ≫= fun h => Timeframe.display_value (Claimdata.impact_timeframe h))
    (h ≫= fun h => Scope.value (Claimdata.contributors h))
    (CMSReport.id cmsReport)
    (CMSReport.status cmsReport)
    (CMSReport.date_created cmsReport)
    (CMSReport.slug cmsReport)
    (CMSReport.story cmsReport)
    (CMSReport.bc_ratio cmsReport)
    (CMSReport.villages_impacted cmsReport)
    (CMSReport.people_impacted cmsReport)
    (CMSReport.verified_by cmsReport)
    (CMSReport.date_updated cmsReport)
    (CMSReport.byline cmsReport)
    (Number (CMSReport.total_cost cmsReport))
    funded.

(** [fromCMS.find((cmsReport) => cmsReport.title === metadata.name)] *)
Definition findCMSReport (fromCMS : list CMSReport.t) (metadata : Metadata.t)
  : option CMSReport.t :=
  find (fun cmsReport =>
          String.eqb (CMSReport.title cmsReport) (Metadata.name metadata))
       fromCMS.

(** [reports.find(p)] over an array of references. *)
Definition findReport (p : Report.t -> bool) (a : aloc) : M (option rloc) :=
  fun st => (Fulfilled (find (holds st p) (items st a)), st).

(** The errors the module raises by name. *)
Definition ownerAddressNotSet : Thrown :=
  Error "[server] Owner address environment variable is not set".

Definition contentMismatch (title : string) : Thrown :=
  Error ("[server] CMS content for report titled '" ++ title ++ "' not found.").

Definition fetchFailure (error : Thrown) : Thrown :=
  Error ("[server] Failed to fetch reports: " ++ toString error).

Definition slugNotFound (slug : string) : Thrown :=
  Error ("[server] Report with slug '" ++ slug ++ "' not found.").

Definition slugFailure (slug : string) (error : Thrown) : Thrown :=
  Error ("[server] Failed to get report by slug " ++ slug ++ ": "
         ++ toString error).

Definition metadataFailure (claimUri : string) (error : Thrown) : Thrown :=
  Error ("[Hypercerts] Failed to fetch metadata of " ++ claimUri ++ ": "
         ++ toString error).

(** One per-claim lookup of [claims.map(async ...)], suspended at one of
    its three [await]s or finished. *)
Inductive Task :=
| AwaitMetadata (claim : Claim.t)
| AwaitCMS (claim : Claim.t) (metadata : Metadata.t)
| AwaitFunded (claim : Claim.t) (metadata : Metadata.t)
    (cmsReport : CMSReport.t) (state : option string)
| Done (report : rloc).

Section Functions.

Context (R : Remote).

(** [getHypercertClaims] *)
Definition getHypercertClaims (ownerAddress : string) : M (list Claim.t) :=
  catch
    (request (ClaimsByOwner ownerAddress);;
     await (claimsByOwner R ownerAddress))
    (fun error =>
       throw (Error ("[Hypercerts] Failed to fetch claims owned by "
                     ++ ownerAddress ++ ": " ++ toString error))).

(** [getHypercertMetadata], from the answer of the store on. *)
Definition getHypercertMetadata (claimUri : string) : M Metadata.t :=
  catch
    (await (getMetadata R claimUri))
    (fun error =>
       throw (metadataFailure claimUri error)).

(** The callback of [claims.map] runs up to its first [await]: the
    metadata request is out. *)
Definition start (claim : Claim.t) : M Task :=
  getHypercertClient;;
  request (GetMetadata (Claim.uri claim));;
  ret (AwaitMetadata claim).

(** The metadata is back: the callback goes on to [getCMSReports()]. *)
Definition onMetadata (claim : Claim.t) : M Metadata.t :=
  metadata <- getHypercertMetadata (Claim.uri claim);;
  request GetCMSReports;;
  ret metadata.

(** The editorial list is back: the record is looked up by title, the
    fields of the literal are evaluated down to the call of
    [getFundedAmountByHCId]. *)
Definition onCMS (claim : Claim.t) (metadata : Metadata.t)
  : M (CMSReport.t * option string) :=
  fromCMS <- await (getCMSReports R);;
  match findCMSReport fromCMS metadata with
  | None =>
      throw (contentMismatch (Metadata.name metadata))
  | Some cmsReport =>
      state <- eval (stateOf metadata);;
      request (GetFundedAmountByHCId (Claim.id claim));;
      ret (cmsReport, state)
  end.

(** The funded amount is back: the report object exists. *)
Definition onFunded (claim : Claim.t) (metadata : Metadata.t)
    (cmsReport : CMSReport.t) (state : option string) : M rloc :=
  funded <- await (getFundedAmountByHCId R (Claim.id claim));;
  allocReport (mkReport claim metadata cmsReport state funded).

(** The response a task waits for arrives, and the task runs to its next
    [await]. *)
Definition deliver (t : Task) : M Task :=
  match t with
  | AwaitMetadata claim =>
      metadata <- onMetadata claim;; ret (AwaitCMS claim metadata)
  | AwaitCMS claim metadata =>
      x <- onCMS claim metadata;; ret (AwaitFunded claim metadata x.1 x.2)
  | AwaitFunded claim metadata cmsReport state =>
      l <- onFunded claim metadata cmsReport state;; ret (Done l)
  | Done l => ret (Done l)
  end.

(** A task runs to its end without another one in between. *)
Definition finish (t : Task) : M rloc :=
  match t with
  | AwaitMetadata claim =>
      metadata <- onMetadata claim;;
      x <- onCMS claim metadata;;
      onFunded claim metadata x.1 x.2
  | AwaitCMS claim metadata =>
      x <- onCMS claim metadata;;
      onFunded claim metadata x.1 x.2
  | AwaitFunded claim metadata cmsReport state =>
      onFunded claim metadata cmsReport state
  | Done l => ret l
  end.

(** The tasks finish one after the other, in claim order. *)
Fixpoint drain (tasks : list Task) : M (list rloc) :=
  match tasks with
  | [] => ret []
  | t :: ts => l <- finish t;; ls <- drain ts;; ret (l :: ls)
  end.

(** [Promise.all] over the tasks. The schedule names, response by
    response, the task whose answer arrives next (a name without pending
    task is skipped); once it is used up the remaining tasks finish in
    claim order. The first rejection rejects the whole; the results are
    collected by position. Tasks still pending at a rejection go on in
    the background, where they reach collaborators but never [reports]:
    the model leaves them out. *)
Fixpoint settle (sched : list nat) (tasks : list Task) : M (list rloc) :=
  match sched with
  | [] => drain tasks
  | i :: sched' =>
      match tasks !! i with
      | Some t => t' <- deliver t;; settle sched' (<[i := t']> tasks)
      | None => settle sched' tasks
      end
  end.

(** [l.map(f)] for a callback with effects. *)
Fixpoint mapM {A B} (f : A -> M B) (l : list A) : M (list B) :=
  match l with
  | [] => ret []
  | a :: l' => b <- f a;; bs <- mapM f l';; ret (b :: bs)
  end.

(** [fetchReports]. The [console] output is left out. *)
Definition fetchReports (sched : list nat) : M aloc :=
  env <- gets HC_OWNER_ADDRESS;;
  match env with
  | None | Some "" =>
      throw ownerAddressNotSet
  | Some ownerAddress =>
      catch
        (cached <- gets reports;;
         match cached with
         | Some a => ret a
         | None =>
             getHypercertClient;;
             claims <- getHypercertClaims ownerAddress;;
             tasks <- mapM start claims;;
             ls <- settle sched tasks;;
             a <- allocArray ls;;
             setReports a;;
             ret a
         end)
        (fun error => throw (fetchFailure error))
  end.

(** [fetchReportBySlug] *)
Definition fetchReportBySlug (sched : list nat) (slug : string) : M rloc :=
  catch
    (a <- fetchReports sched;;
     foundReport <-
       findReport (fun report => String.eqb (Report.slug report) slug) a;;
     match foundReport with
     | None =>
         throw (slugNotFound slug)
     | Some l => ret l
     end)
    (fun error => throw (slugFailure slug error)).

(** [fetchReportByHCId] *)
Definition fetchReportByHCId (sched : list nat) (hypercertId : string)
  : M rloc :=
  catch
    (a <- fetchReports sched;;
     foundReport <-
       findReport
         (fun report => String.eqb (Report.hypercertId report) hypercertId) a;;
     match foundReport with
     | None =>
         throw (Error ("[server] Report with hypercert Id '" ++ hypercertId
                       ++ "' not found."))
     | Some l => ret l
     end)
    (fun error =>
       throw (Error ("[server] Failed to get report with hypercert Id '"
                     ++ hypercertId ++ "': " ++ toString error))).

End Functions.

(** [getReports]: the cached array, or a new empty one. *)
Definition getReports : M aloc :=
  cached <- gets reports;;
  match cached with
  | Some a => ret a
  | None => allocArray []
  end.

(** [report.fundedSoFar += amount] on the object behind [l]. *)
Definition addFundedAt (l : rloc) (amount : float) : M unit :=
  fun st =>
    (Fulfilled tt,
     mkState (HC_OWNER_ADDRESS st) (reports st) (hypercertClient st)
             (alter (Report.addFunded amount) l (objects st))
             (arrays st) (calls st)).

(** [updateFundedAmount]. Between taking and releasing [reportsMutex]
    the body has no [await], so it runs as one step and the lock is free
    again when it ends. *)
Definition updateFundedAmount (hypercertId : string) (amount : float)
  : M unit :=
  a <- getReports;;
  report <-
    findReport (fun r => String.eqb (Report.hypercertId r) hypercertId) a;;
  match report with
  | Some l => addFundedAt l amount
  | None => ret tt
  end.

(** ** What one claim comes to

    The callback of [claims.map] for one claim with the requests and the
    allocation taken away: the report it builds, or what it throws. *)
Definition merge (R : Remote) (claim : Claim.t) : settled Report.t :=
  match getMetadata R (Claim.uri claim) with
  | Rejected error => Rejected (metadataFailure (Claim.uri claim) error)
  | Fulfilled metadata =>
      match getCMSReports R with
      | Rejected error => Rejected error
      | Fulfilled fromCMS =>
          match findCMSReport fromCMS metadata with
          | None => Rejected (contentMismatch (Metadata.name metadata))
          | Some cmsReport =>
              match stateOf metadata with
              | Rejected error => Rejected error
              | Fulfilled state =>
                  match getFundedAmountByHCId R (Claim.id claim) with
                  | Rejected error => Rejected error
                  | Fulfilled funded =>
                      Fulfilled (mkReport claim metadata cmsReport state funded)
                  end
              end
          end
      end
  end.

(** The reports behind the cached array, in its order; empty while
    nothing is cached. *)
Definition cache (st : State) : list Report.t :=
  match reports st with
  | Some a => omap (fun l => objects st !! l) (items st a)
  | None => []
  end.

(** The states the module can be in: from the load on, any sequence of
    calls of its exported functions, each against any collaborators and
    any schedule. *)
Inductive reachable : State -> Prop :=
| reach_initial env : reachable (initial env)
| reach_fetchReports R sched st :
    reachable st -> reachable (fetchReports R sched st).2
| reach_fetchReportBySlug R sched slug st :
    reachable st -> reachable (fetchReportBySlug R sched slug st).2
| reach_fetchReportByHCId R sched hypercertId st :
    reachable st -> reachable (fetchReportByHCId R sched hypercertId st).2
| reach_getReports st :
    reachable st -> reachable (getReports st).2
| reach_updateFundedAmount hypercertId amount st :
    reachable st -> reachable (updateFundedAmount hypercertId amount st).2.

(** ** Notions used in the statements *)

(** The owner address is set: [process.env.HC_OWNER_ADDRESS] is a
    non-empty string. *)
Definition configured (st : State) : Prop :=
  exists ownerAddress,
    HC_OWNER_ADDRESS st = Some ownerAddress /\ ownerAddress <> "".

(** [st'] has the configuration, the cache variable and the arrays of
    [st], and at least its objects and its requests. *)
Record extends (st st' : State) : Prop := {
  ext_env : HC_OWNER_ADDRESS st' = HC_OWNER_ADDRESS st;
  ext_reports : reports st' = reports st;
  ext_arrays : arrays st' = arrays st;
  ext_objects : objects st `prefix_of` objects st';
  ext_calls : calls st `suffix_of` calls st'
}.

Section Outcomes.

Context (R : Remote).

(** A task is at a point of the lookup of [claim] that agrees with the
    collaborators' answers; a finished one has built the claim's report. *)
Definition task_for (st : State) (claim : Claim.t) (t : Task) : Prop :=
  match t with
  | AwaitMetadata c => c = claim
  | AwaitCMS c metadata =>
      c = claim /\ getMetadata R (Claim.uri claim) = Fulfilled metadata
  | AwaitFunded c metadata cmsReport state =>
      c = claim /\ getMetadata R (Claim.uri claim) = Fulfilled metadata /\
      (exists fromCMS, getCMSReports R = Fulfilled fromCMS /\
                       findCMSReport fromCMS metadata = Some cmsReport) /\
      stateOf metadata = Fulfilled state
  | Done l => exists r, objects st !! l = Some r /\ merge R claim = Fulfilled r
  end.

(** The outcome of a step, read against the claim's [merge]. *)
Definition step_ok {A} (st : State) (claim : Claim.t)
    (good : State -> A -> Prop) (res : settled A * State) : Prop :=
  extends st res.2 /\
  match res.1 with
  | Fulfilled a => good res.2 a
  | Rejected e => merge R claim = Rejected e
  end.

(** The outcome of [Promise.all] over the lookups of [claims]: the
    reports of all claims by position, or the rejection of one of them. *)
Definition all_ok (st : State) (claims : list Claim.t)
    (res : settled (list rloc) * State) : Prop :=
  extends st res.2 /\
  match res.1 with
  | Fulfilled ls => Forall2 (fun c l => task_for res.2 c (Done l)) claims ls
  | Rejected e => exists c, c ∈ claims /\ merge R c = Rejected e
  end.

(** A population attempt, once the indexer has answered with [claims]:
    either every claim merges and the array of their reports, in claim
    order, becomes the cache; or the lookup of one claim rejects, its
    error comes out wrapped and the cache stays empty. Either way the
    configuration is kept, nothing allocated before is touched and the
    indexer has been asked. *)
Definition populated (st : State) (ownerAddress : string)
    (claims : list Claim.t) (res : settled aloc * State) : Prop :=
  HC_OWNER_ADDRESS res.2 = HC_OWNER_ADDRESS st /\
  objects st `prefix_of` objects res.2 /\
  arrays st `prefix_of` arrays res.2 /\
  ClaimsByOwner ownerAddress :: calls st `suffix_of` calls res.2 /\
  match res.1 with
  | Fulfilled a =>
      reports res.2 = Some a /\
      exists ls, arrays res.2 !! a = Some ls /\
        Forall2 (fun c l => exists r, objects res.2 !! l = Some r /\
                                      merge R c = Fulfilled r) claims ls
  | Rejected error =>
      reports res.2 = None /\
      exists c e, c ∈ claims /\ merge R c = Rejected e /\
                  error = fetchFailure e
  end.

End Outcomes.

(** ** Notions used in the further properties *)

(** The errors of [getHypercertClaims] and [fetchReportByHCId], by name. *)
Definition claimsFailure (ownerAddress : string) (error : Thrown) : Thrown :=
  Error ("[Hypercerts] Failed to fetch claims owned by " ++ ownerAddress
         ++ ": " ++ toString error).

Definition hypercertIdNotFound (hypercertId : string) : Thrown :=
  Error ("[server] Report with hypercert Id '" ++ hypercertId
         ++ "' not found.").

Definition hypercertIdFailure (hypercertId : string) (error : Thrown)
  : Thrown :=
  Error ("[server] Failed to get report with hypercert Id '" ++ hypercertId
         ++ "': " ++ toString error).

(** One call of an exported function that runs to its end before the next
    one begins, against any collaborators and any schedule. Calls that
    overlap in time are no steps, and a lookup still pending when
    [Promise.all] rejects is not followed further. *)
Inductive step : State -> State -> Prop :=
| step_fetchReports R sched st : step st (fetchReports R sched st).2
| step_fetchReportBySlug R sched slug st :
    step st (fetchReportBySlug R sched slug st).2
| step_fetchReportByHCId R sched hypercertId st :
    step st (fetchReportByHCId R sched hypercertId st).2
| step_getReports st : step st (getReports st).2
| step_updateFundedAmount hypercertId amount st :
    step st (updateFundedAmount hypercertId amount st).2.

(** A report with its funding left aside: two reports agree on it when
    they differ at most in [fundedSoFar]. *)
Definition withoutFunding (r : Report.t) : Report.t :=
  Report.mk (Report.hypercertId r) (Report.title r) (Report.summary r)
    (Report.image r) (Report.originalReportUrl r) (Report.state r)
    (Report.category r) (Report.workTimeframe r) (Report.impactScope r)
    (Report.impactTimeframe r) (Report.contributors r) (Report.cmsId r)
    (Report.status r) (Report.dateCreated r) (Report.slug r)
    (Report.story r) (Report.bcRatio r) (Report.villagesImpacted r)
    (Report.peopleImpacted r) (Report.verifiedBy r) (Report.dateUpdated r)
    (Report.byline r) (Report.totalCost r) 0%float.

(** The requests the lookup of [claim] has sent when it stands at [t],
    newest first. *)
Definition issued (claim : Claim.t) (t : Task) : list Call :=
  match t with
  | AwaitMetadata _ => [GetMetadata (Claim.uri claim)]
  | AwaitCMS _ _ => [GetCMSReports; GetMetadata (Claim.uri claim)]
  | AwaitFunded _ _ _ _ | Done _ =>
      [GetFundedAmountByHCId (Claim.id claim); GetCMSReports;
       GetMetadata (Claim.uri claim)]
  end.

(** The requests of all lookups together. *)
Definition issuedAll (claims : list Claim.t) (tasks : list Task) : list Call :=
  concat (zip_with issued claims tasks).

(** The requests of a completed lookup of every claim. *)
Definition lookupCalls (claims : list Claim.t) : list Call :=
  concat ((fun claim =>
             [GetFundedAmountByHCId (Claim.id claim); GetCMSReports;
              GetMetadata (Claim.uri claim)]) <$> claims).

(** The report a finished lookup has allocated, and those of all finished
    lookups. *)
Definition taskLoc (t : Task) : option rloc :=
  match t with
  | Done l => Some l
  | _ => None
  end.

Definition doneLocs (tasks : list Task) : list rloc := omap taskLoc tasks.

(** The references [locs] are pairwise different and name the objects
    allocated since the heap had [n0] of them, all of these. *)
Definition allocated (n0 : nat) (st : State) (locs : list rloc) : Prop :=
  NoDup locs /\
  Forall (fun l => n0 <= l < length (objects st)) locs /\
  length (objects st) = n0 + length locs.

(** ** Sample collaborators *)

Module Sample.

Definition metadata (name : string) (properties : option (list Property.t))
  : Metadata.t :=
  Metadata.mk name "A description" "ipfs://image" None properties None.

Definition editorial (title slug total_cost : string) : CMSReport.t :=
  CMSReport.mk (JsString "1") (JsString "published") (JsString "2024-01-01")
    title slug (JsString "A story") (JsNumber 2) (JsNumber 3) (JsNumber 40)
    JsNull JsNull (JsString "A byline") total_cost.

Definition foo : Claim.t := Claim.mk "0xF00" "ipfs://foo".
Definition bar : Claim.t := Claim.mk "0xBA5" "ipfs://bar".

(** Two claims, the first without properties, each with its editorial
    record. *)
Definition remote : Remote := {|
  claimsByOwner := fun _ => Fulfilled [foo; bar];
  getMetadata := fun claimUri =>
    if String.eqb claimUri "ipfs://foo" then Fulfilled (metadata "Foo" None)
    else if String.eqb claimUri "ipfs://bar" then
      Fulfilled
        (metadata "Bar" (Some [Property.mk (Some "State") (Some "Kerala")]))
    else Rejected (Foreign "not found");
  getCMSReports :=
    Fulfilled [editorial "Bar" "bar-1" "7.5"; editorial "Foo" "foo-1" "100"];
  getFundedAmountByHCId := fun hypercertId =>
    Fulfilled (if String.eqb hypercertId "0xF00" then 50%float else 0%float)
|}.

(** The store cannot resolve the first claim; the second one is titled
    like no editorial record. *)
Definition unresolved : Remote := {|
  claimsByOwner := fun _ => Fulfilled [foo; bar];
  getMetadata := fun claimUri =>
    if String.eqb claimUri "ipfs://bar" then Fulfilled (metadata "Bar" None)
    else Rejected (Foreign "gateway timeout");
  getCMSReports := Fulfilled [editorial "Foo" "foo-1" "100"];
  getFundedAmountByHCId := fun _ => Fulfilled 0%float
|}.

(** One claim, titled like no editorial record. *)
Definition unmatched : Remote := {|
  claimsByOwner := fun _ => Fulfilled [bar];
  getMetadata := fun _ => Fulfilled (metadata "Bar" None);
  getCMSReports := Fulfilled [editorial "Foo" "foo-1" "100"];
  getFundedAmountByHCId := fun _ => Fulfilled 0%float
|}.

(** Two claims with metadata of the same name. *)
Definition namesakes : Remote := {|
  claimsByOwner := fun _ => Fulfilled [foo; bar];
  getMetadata := fun _ => Fulfilled (metadata "Foo" None);
  getCMSReports := Fulfilled [editorial "Foo" "foo-1" "100"];
  getFundedAmountByHCId := fun _ => Fulfilled 0%float
|}.

(** One claim whose first property has a type but no value. *)
Definition valueless : Remote := {|
  claimsByOwner := fun _ => Fulfilled [foo];
  getMetadata := fun _ =>
    Fulfilled (metadata "Foo" (Some [Property.mk (Some "State") None]));
  getCMSReports := Fulfilled [editorial "Foo" "foo-1" "100"];
  getFundedAmountByHCId := fun _ => Fulfilled 0%float
|}.

(** One claim whose properties list is there and empty. *)
Definition propertyless : Remote := {|
  claimsByOwner := fun _ => Fulfilled [foo];
  getMetadata := fun _ => Fulfilled (metadata "Foo" (Some []));
  getCMSReports := Fulfilled [editorial "Foo" "foo-1" "100"];
  getFundedAmountByHCId := fun _ => Fulfilled 0%float
|}.

(** The indexer is down. *)
Definition offline : Remote := {|
  claimsByOwner := fun _ => Rejected (Foreign "ECONNREFUSED");
  getMetadata := fun _ => Rejected (Foreign "ECONNREFUSED");
  getCMSReports := Rejected (Foreign "ECONNREFUSED");
  getFundedAmountByHCId := fun _ => Rejected (Foreign "ECONNREFUSED")
|}.


(** The indexer lists two claims under one identifier. *)
Definition twin : Claim.t := Claim.mk "0xF00" "ipfs://bar".

Definition twins : Remote := {|
  claimsByOwner := fun _ => Fulfilled [foo; twin];
  getMetadata := getMetadata remote;
  getCMSReports := getCMSReports remote;
  getFundedAmountByHCId := getFundedAmountByHCId remote
|}.

(** The module as loaded with an owner address, and after a first
    [fetchReports] against [remote] in which the answers for the second
    claim overtake those for the first. *)
Definition loaded : State := initial (Some "0x5E7").

Definition fetched : State := (fetchReports remote [1; 1; 0; 1] loaded).2.

End Sample.

(** * Properties *)

(** ** [Number] on sample strings *)

Example Number_integer : Number "100" = 100%float.
Proof. reflexivity. Qed.

Example Number_fraction : Number " 1500.50 " = 1500.5%float.
Proof. reflexivity. Qed.

Example Number_exponent : Number "-2.5e3" = (-2500)%float.
Proof. reflexivity. Qed.

Example Number_empty : Number "" = 0%float.
Proof. reflexivity. Qed.

Example Number_hexadecimal : Number "0x1F" = 31%float.
Proof. reflexivity. Qed.

Example Number_rounds_to_even :
  Number "9007199254740993" = 9007199254740992%float.
Proof. reflexivity. Qed.

Example Number_not_numeric : Number "12 units" = nan.
Proof. reflexivity. Qed.

(** ** The per-claim lookups only add to the state *)

Lemma extends_refl st : extends st st.
Proof. by split. Qed.

Lemma extends_trans st1 st2 st3 :
  extends st1 st2 -> extends st2 st3 -> extends st1 st3.
Proof.
  intros [] []; split; try congruence; by etrans.
Qed.

Lemma extends_request c st : extends st (request c st).2.
Proof. split; simpl; try done. by apply suffix_cons_r. Qed.

Lemma extends_allocReport r st : extends st (allocReport r st).2.
Proof. split; simpl; try done. by apply prefix_app_r. Qed.

Lemma extends_lookup st st' (l : rloc) (r : Report.t) :
  extends st st' -> objects st !! l = Some r -> objects st' !! l = Some r.
Proof. intros [_ _ _ H _] Hl. by eapply prefix_lookup_Some. Qed.

Section Lookups.

Context (R : Remote).

Lemma task_for_extends st st' claim t :
  extends st st' -> task_for R st claim t -> task_for R st' claim t.
Proof.
  intros Hext; destruct t; simpl; try done.
  intros (r & Hl & Hm). exists r. eauto using extends_lookup.
Qed.

Lemma step_bind {A B} st claim (good : State -> A -> Prop)
    (good' : State -> B -> Prop) (m : M A) (k : A -> M B) :
  step_ok R st claim good (m st) ->
  (forall st' a, good st' a -> step_ok R st' claim good' (k a st')) ->
  step_ok R st claim good' (bind m k st).
Proof.
  unfold step_ok, bind. destruct (m st) as [[a|e] st1]; simpl.
  - intros [Hext Hgood] Hk. destruct (Hk _ _ Hgood) as [Hext' Hres].
    split; [by eapply extends_trans|done].
  - done.
Qed.

Lemma step_ret {A} st claim (good : State -> A -> Prop) (a : A) :
  good st a -> step_ok R st claim good (ret a st).
Proof. split; [apply extends_refl|done]. Qed.

Lemma onMetadata_ok st claim :
  step_ok R st claim
    (fun _ metadata => getMetadata R (Claim.uri claim) = Fulfilled metadata)
    (onMetadata R claim st).
Proof.
  unfold step_ok, onMetadata, getHypercertMetadata, bind, catch, await, throw.
  destruct (getMetadata R (Claim.uri claim)) eqn:Hm; simpl.
  - split; [apply extends_request|done].
  - split; [apply extends_refl|]. unfold merge. by rewrite Hm.
Qed.

Lemma onCMS_ok st claim metadata :
  getMetadata R (Claim.uri claim) = Fulfilled metadata ->
  step_ok R st claim
    (fun st' x => task_for R st' claim (AwaitFunded claim metadata x.1 x.2))
    (onCMS R claim metadata st).
Proof.
  intros Hm. unfold step_ok, onCMS, bind, await, eval, throw.
  destruct (getCMSReports R) as [fromCMS|e] eqn:Hc; simpl.
  - destruct (findCMSReport fromCMS metadata) as [cms|] eqn:Hf; simpl.
    + destruct (stateOf metadata) as [s|e] eqn:Hs; simpl.
      * split; [apply extends_request|]. repeat split; eauto.
      * split; [apply extends_refl|]. unfold merge.
        by rewrite Hm, Hc, Hf, Hs.
    + split; [apply extends_refl|]. unfold merge. by rewrite Hm, Hc, Hf.
  - split; [apply extends_refl|]. unfold merge. by rewrite Hm, Hc.
Qed.

Lemma onFunded_ok st claim metadata cmsReport state :
  task_for R st claim (AwaitFunded claim metadata cmsReport state) ->
  step_ok R st claim (fun st' l => task_for R st' claim (Done l))
    (onFunded R claim metadata cmsReport state st).
Proof.
  intros (_ & Hm & (fromCMS & Hc & Hf) & Hs).
  unfold step_ok, onFunded, bind, await.
  destruct (getFundedAmountByHCId R (Claim.id claim)) as [f|e] eqn:Hfd; simpl.
  - split; [apply extends_allocReport|].
    eexists; split; [by apply list_lookup_middle|].
    unfold merge. by rewrite Hm, Hc, Hf, Hs, Hfd.
  - split; [apply extends_refl|]. unfold merge.
    by rewrite Hm, Hc, Hf, Hs, Hfd.
Qed.

Lemma deliver_ok st claim t :
  task_for R st claim t ->
  step_ok R st claim (fun st' t' => task_for R st' claim t') (deliver R t st).
Proof.
  destruct t as [c|c m|c m cms s|l]; simpl.
  - intros ->. eapply step_bind; [apply onMetadata_ok|].
    intros st' m Hm. by apply step_ret.
  - intros [-> Hm]. eapply step_bind; [by apply onCMS_ok|].
    intros st' x Hx. by apply step_ret.
  - intros H. assert (c = claim) as -> by apply H.
    eapply step_bind; [by apply onFunded_ok|].
    intros st' l' Hl. by apply step_ret.
  - intros H. by apply step_ret.
Qed.

Lemma finish_ok st claim t :
  task_for R st claim t ->
  step_ok R st claim (fun st' l => task_for R st' claim (Done l))
    (finish R t st).
Proof.
  destruct t as [c|c m|c m cms s|l]; simpl.
  - intros ->. eapply step_bind; [apply onMetadata_ok|].
    intros st1 m Hm. eapply step_bind; [by apply onCMS_ok|].
    intros st2 x Hx. by apply onFunded_ok.
  - intros [-> Hm]. eapply step_bind; [by apply onCMS_ok|].
    intros st2 x Hx. by apply onFunded_ok.
  - intros H. assert (c = claim) as -> by apply H. by apply onFunded_ok.
  - intros H. by apply step_ret.
Qed.

Lemma Forall2_task_for_extends st st' claims tasks :
  extends st st' ->
  Forall2 (task_for R st) claims tasks -> Forall2 (task_for R st') claims tasks.
Proof.
  intros Hext H. eapply Forall2_impl; [done|].
  intros c t. by apply task_for_extends.
Qed.

Lemma drain_ok st claims tasks :
  Forall2 (task_for R st) claims tasks -> all_ok R st claims (drain R tasks st).
Proof.
  revert st claims. induction tasks as [|t ts IH]; intros st claims H.
  - apply Forall2_nil_inv_r in H as ->. split; [apply extends_refl|].
    simpl. constructor.
  - apply Forall2_cons_inv_r in H as (c & cs & Hc & Hcs & ->).
    simpl. unfold bind.
    destruct (finish_ok st c t Hc) as [Hext Hres].
    destruct (finish R t st) as [[l|e] st1]; simpl in *.
    + specialize (IH st1 cs (Forall2_task_for_extends _ _ _ _ Hext Hcs)).
      destruct IH as [Hext' Hres'].
      destruct (drain R ts st1) as [[ls|e] st2]; simpl in *.
      * split; [by eapply extends_trans|].
        constructor; [by eapply task_for_extends|done].
      * split; [by eapply extends_trans|].
        destruct Hres' as (c' & Hin & Hm). exists c'.
        split; [by apply list_elem_of_further|done].
    + split; [done|]. exists c. split; [by apply list_elem_of_here|done].
Qed.

Lemma settle_ok sched st claims tasks :
  Forall2 (task_for R st) claims tasks ->
  all_ok R st claims (settle R sched tasks st).
Proof.
  revert st tasks. induction sched as [|i sched IH]; intros st tasks H.
  - by apply drain_ok.
  - simpl. destruct (tasks !! i) as [t|] eqn:Ht; [|by apply IH].
    destruct (Forall2_lookup_r _ _ _ _ _ H Ht) as (c & Hc & Hct).
    unfold bind. destruct (deliver_ok st c t Hct) as [Hext Hres].
    destruct (deliver R t st) as [[t'|e] st1]; simpl in *.
    + assert (Forall2 (task_for R st1) claims (<[i:=t']> tasks)) as H1.
      { rewrite <- (list_insert_id claims i c) by done.
        apply Forall2_insert; [|done].
        by eapply Forall2_task_for_extends. }
      destruct (IH st1 _ H1) as [Hext' Hres'].
      split; [by eapply extends_trans|done].
    + split; [done|]. exists c. split; [|done].
      by eapply list_elem_of_lookup_2.
Qed.

Lemma start_ok claim st :
  exists st',
    start claim st = (Fulfilled (AwaitMetadata claim), st') /\
    extends st st' /\ objects st' = objects st.
Proof.
  eexists. split; [done|]. split; [|done].
  split; simpl; try done. by apply suffix_cons_r.
Qed.

Lemma mapM_start_ok claims st :
  exists st',
    mapM start claims st = (Fulfilled (AwaitMetadata <$> claims), st') /\
    extends st st' /\ objects st' = objects st.
Proof.
  revert st. induction claims as [|c cs IH]; intros st.
  - exists st. split; [done|]. split; [apply extends_refl|done].
  - destruct (start_ok c st) as (st1 & Hs & Hext1 & Hobj1).
    destruct (IH st1) as (st2 & Hm & Hext2 & Hobj2).
    exists st2. simpl. unfold bind. rewrite Hs, Hm.
    split; [done|]. split; [by eapply extends_trans|congruence].
Qed.

Lemma Forall2_start st claims :
  Forall2 (task_for R st) claims (AwaitMetadata <$> claims).
Proof. induction claims; constructor; done. Qed.

Lemma fetchReports_populate sched st ownerAddress claims :
  HC_OWNER_ADDRESS st = Some ownerAddress -> ownerAddress <> "" ->
  reports st = None ->
  claimsByOwner R ownerAddress = Fulfilled claims ->
  populated R st ownerAddress claims (fetchReports R sched st).
Proof.
  intros Henv Hne Hnone Hclaims.
  unfold fetchReports, bind at 1, gets at 1. rewrite Henv.
  destruct ownerAddress as [|ch owner]; [done|].
  set (ownerAddress := String ch owner) in *.
  unfold catch, bind at 1, gets. rewrite Hnone.
  unfold bind at 1, getHypercertClient.
  unfold bind at 1, getHypercertClaims, catch, bind at 1, request, await.
  simpl. rewrite Hclaims.
  unfold bind at 1.
  match goal with |- context [mapM _ claims ?s] =>
    set (st0 := s);
    destruct (mapM_start_ok claims st0) as (st1 & -> & Hext1 & Hobj1)
  end.
  unfold bind at 1.
  pose proof (settle_ok sched st1 claims _ (Forall2_start st1 claims))
    as [Hext2 Hres].
  destruct (settle R sched (AwaitMetadata <$> claims) st1) as [[ls|e] st2];
    simpl in *.
  - unfold populated; simpl.
    destruct Hext1 as [He1 Hr1 Ha1 Ho1 Hc1], Hext2 as [He2 Hr2 Ha2 Ho2 Hc2].
    simpl in *. repeat split.
    + congruence.
    + rewrite Hobj1 in Ho2. exact Ho2.
    + rewrite Ha2, Ha1. by apply prefix_app_r.
    + by etrans.
    + exists ls. split; [by apply list_lookup_middle|done].
  - unfold populated, throw; simpl.
    destruct Hext1 as [He1 Hr1 Ha1 Ho1 Hc1], Hext2 as [He2 Hr2 Ha2 Ho2 Hc2].
    simpl in *. repeat split.
    + congruence.
    + rewrite Hobj1 in Ho2. exact Ho2.
    + by rewrite Ha2, Ha1.
    + by etrans.
    + congruence.
    + destruct Hres as (c & Hin & Hm). by exists c, e.
Qed.

End Lookups.

(** ** The cache variable and the configuration *)

Lemma fetchReports_unset R sched st :
  HC_OWNER_ADDRESS st = None \/ HC_OWNER_ADDRESS st = Some "" ->
  fetchReports R sched st = (Rejected ownerAddressNotSet, st).
Proof.
  unfold fetchReports, bind, gets. by intros [-> | ->].
Qed.

Lemma fetchReports_hit R sched st a :
  configured st -> reports st = Some a ->
  fetchReports R sched st = (Fulfilled a, st).
Proof.
  intros (owner & Henv & Hne) Hr. unfold fetchReports, bind at 1, gets at 1.
  rewrite Henv. destruct owner; [done|].
  unfold catch, bind, gets. by rewrite Hr.
Qed.

(** A population attempt that the indexer refuses. *)
Lemma fetchReports_no_claims R sched st ownerAddress e :
  HC_OWNER_ADDRESS st = Some ownerAddress -> ownerAddress <> "" ->
  reports st = None ->
  claimsByOwner R ownerAddress = Rejected e ->
  exists st' error,
    fetchReports R sched st = (Rejected (fetchFailure error), st') /\
    HC_OWNER_ADDRESS st' = HC_OWNER_ADDRESS st /\ reports st' = None /\
    objects st' = objects st /\ arrays st' = arrays st /\
    calls st' = ClaimsByOwner ownerAddress :: calls st.
Proof.
  intros Henv Hne Hr Hc. unfold fetchReports, bind at 1, gets at 1.
  rewrite Henv. destruct ownerAddress as [|ch owner]; [done|].
  unfold catch, bind, gets, getHypercertClient, getHypercertClaims, catch,
    bind, request, await, throw.
  rewrite Hr. simpl. rewrite Hc. eauto 10.
Qed.

(** Whatever happens, [fetchReports] keeps the configuration, and the
    cache variable changes only from empty, under a set owner address. *)
Lemma fetchReports_frame R sched st :
  let st' := (fetchReports R sched st).2 in
  HC_OWNER_ADDRESS st' = HC_OWNER_ADDRESS st /\
  (reports st' = reports st \/ configured st).
Proof.
  destruct (HC_OWNER_ADDRESS st) as [owner|] eqn:Henv.
  2: { rewrite fetchReports_unset by auto. simpl. auto. }
  destruct owner as [|ch owner].
  { rewrite fetchReports_unset by auto. simpl. auto. }
  set (ownerAddress := String ch owner) in *.
  assert (ownerAddress <> "") as Hne by done.
  clearbody ownerAddress. rename ownerAddress into owner'.
  simpl. split; [|right; by exists owner'].
  destruct (reports st) as [a|] eqn:Hr.
  { rewrite (fetchReports_hit R sched st a); [done| by exists owner' |done]. }
  destruct (claimsByOwner R owner') as [claims|e] eqn:Hc.
  - destruct (fetchReports_populate R sched st owner' claims) as [He _];
      try done. congruence.
  - destruct (fetchReports_no_claims R sched st owner' e)
      as (st' & err & -> & He & _); try done. simpl. congruence.
Qed.

Lemma fetchReportBySlug_state R sched slug st :
  (fetchReportBySlug R sched slug st).2 = (fetchReports R sched st).2.
Proof.
  unfold fetchReportBySlug, catch, bind, findReport, throw, ret.
  destruct (fetchReports R sched st) as [[a|e] st']; simpl; [|done].
  by destruct (find _ _).
Qed.

Lemma fetchReportByHCId_state R sched hypercertId st :
  (fetchReportByHCId R sched hypercertId st).2 = (fetchReports R sched st).2.
Proof.
  unfold fetchReportByHCId, catch, bind, findReport, throw, ret.
  destruct (fetchReports R sched st) as [[a|e] st']; simpl; [|done].
  by destruct (find _ _).
Qed.

Lemma getReports_hit st a :
  reports st = Some a -> getReports st = (Fulfilled a, st).
Proof. intros Hr. unfold getReports, bind, gets. by rewrite Hr. Qed.

Lemma getReports_miss st :
  reports st = None -> getReports st = allocArray [] st.
Proof. intros Hr. unfold getReports, bind, gets. by rewrite Hr. Qed.

Lemma items_allocArray ls st :
  items (allocArray ls st).2 (length (arrays st)) = ls.
Proof. unfold items. simpl. by rewrite list_lookup_middle. Qed.

(** [updateFundedAmount] on a populated cache: the first report with the
    identifier, if any, is updated where it is. *)
Lemma updateFundedAmount_hit hypercertId amount st a :
  reports st = Some a ->
  updateFundedAmount hypercertId amount st =
  match find (holds st (fun r => String.eqb (Report.hypercertId r) hypercertId))
             (items st a) with
  | Some l => addFundedAt l amount st
  | None => (Fulfilled tt, st)
  end.
Proof.
  intros Hr. unfold updateFundedAmount, bind. rewrite (getReports_hit st a Hr).
  unfold findReport. by destruct (find _ _).
Qed.

(** [updateFundedAmount] before any population: [getReports] hands it a
    new empty array, in which nothing is found. *)
Lemma updateFundedAmount_miss hypercertId amount st :
  reports st = None ->
  updateFundedAmount hypercertId amount st =
  (Fulfilled tt, (allocArray [] st).2).
Proof.
  intros Hr. unfold updateFundedAmount, bind. rewrite (getReports_miss st Hr).
  unfold findReport. change (allocArray [] st) with
    (Fulfilled (length (arrays st)), (allocArray [] st).2).
  cbv beta iota. by rewrite items_allocArray.
Qed.

Lemma getReports_frame st :
  HC_OWNER_ADDRESS (getReports st).2 = HC_OWNER_ADDRESS st /\
  reports (getReports st).2 = reports st /\
  objects (getReports st).2 = objects st /\
  calls (getReports st).2 = calls st.
Proof.
  destruct (reports st) as [a|] eqn:Hr.
  - by rewrite (getReports_hit st a).
  - by rewrite getReports_miss.
Qed.

Lemma updateFundedAmount_frame hypercertId amount st :
  let st' := (updateFundedAmount hypercertId amount st).2 in
  HC_OWNER_ADDRESS st' = HC_OWNER_ADDRESS st /\ reports st' = reports st /\
  calls st' = calls st.
Proof.
  destruct (reports st) as [a|] eqn:Hr.
  - rewrite (updateFundedAmount_hit _ _ st a Hr). by destruct (find _ _).
  - by rewrite updateFundedAmount_miss.
Qed.

(** In every state the module reaches, a populated cache comes with a set
    owner address: the cache is filled only past the check, and the
    environment is never written. *)
Lemma reachable_configured st :
  reachable st -> reports st <> None -> configured st.
Proof.
  induction 1 as [env|R sched st _ IH|R sched slug st _ IH
                 |R sched hcid st _ IH|st _ IH|hcid amount st _ IH];
    intros Hr.
  - done.
  - destruct (fetchReports_frame R sched st) as [He [Hs|Hc]].
    + rewrite Hs in Hr. destruct (IH Hr) as (o & ? & ?).
      exists o. split; [congruence|done].
    + destruct Hc as (o & ? & ?). exists o. split; [congruence|done].
  - rewrite fetchReportBySlug_state in *.
    destruct (fetchReports_frame R sched st) as [He [Hs|Hc]].
    + rewrite Hs in Hr. destruct (IH Hr) as (o & ? & ?).
      exists o. split; [congruence|done].
    + destruct Hc as (o & ? & ?). exists o. split; [congruence|done].
  - rewrite fetchReportByHCId_state in *.
    destruct (fetchReports_frame R sched st) as [He [Hs|Hc]].
    + rewrite Hs in Hr. destruct (IH Hr) as (o & ? & ?).
      exists o. split; [congruence|done].
    + destruct Hc as (o & ? & ?). exists o. split; [congruence|done].
  - destruct (getReports_frame st) as (He & Hs & _).
    rewrite Hs in Hr. destruct (IH Hr) as (o & ? & ?).
    exists o. split; [congruence|done].
  - destruct (updateFundedAmount_frame hcid amount st) as (He & Hs & _).
    rewrite Hs in Hr. destruct (IH Hr) as (o & ? & ?).
    exists o. split; [congruence|done].
Qed.

(** * The claims *)

(** ** Configuration *)

(** C6. When the owner address is absent from the configuration,
    [fetchReports] rejects at once with the configuration error. The
    state is the one it was called in: no request has gone to a
    collaborator, and no other address stood in for the missing one. *)
Theorem fetchReports_unconfigured R sched st :
  HC_OWNER_ADDRESS st = None ->
  fetchReports R sched st = (Rejected ownerAddressNotSet, st).
Proof. intros H. apply fetchReports_unset. by left. Qed.

Lemma fetchReports_unconfigured_witness :
  HC_OWNER_ADDRESS (initial None) = None /\
  fetchReports Sample.remote [0; 1] (initial None)
  = (Rejected ownerAddressNotSet, initial None).
Proof.
  split; [reflexivity|].
  apply (fetchReports_unconfigured Sample.remote [0; 1] (initial None)).
  reflexivity.
Defined.

(** ** The cache is filled once *)

(** C2. In every state where the owner address is set and the cache
    holds a report list, [fetchReports] returns that very array and
    leaves the state as it is: no object or array changed, no request
    sent to the indexer, the metadata store or the CMS. A second call
    therefore returns the same array again. The owner address is set in
    every populated state the module reaches ([reachable_configured]). *)
Theorem fetchReports_cached R sched R' sched' st a :
  configured st -> reports st = Some a ->
  fetchReports R sched st = (Fulfilled a, st) /\
  fetchReports R' sched' (fetchReports R sched st).2 = (Fulfilled a, st).
Proof.
  intros Hc Hr.
  rewrite (fetchReports_hit R sched st a Hc Hr). simpl.
  split; [done|]. by apply fetchReports_hit.
Qed.

Lemma fetchReports_cached_witness :
  configured Sample.fetched /\ reports Sample.fetched = Some 0 /\
  fetchReports Sample.unresolved [] Sample.fetched
  = (Fulfilled 0, Sample.fetched) /\
  fetchReports Sample.remote [1]
    (fetchReports Sample.unresolved [] Sample.fetched).2
  = (Fulfilled 0, Sample.fetched).
Proof.
  assert (configured Sample.fetched) as Hc.
  { exists "0x5E7". split; [vm_compute; reflexivity|discriminate]. }
  split; [exact Hc|]. split; [vm_compute; reflexivity|].
  apply (fetchReports_cached Sample.unresolved [] Sample.remote [1]
           Sample.fetched 0 Hc).
  vm_compute; reflexivity.
Defined.

(** ** Reading without fetching *)

(** C9. While the cache is empty, which it is until a [fetchReports]
    succeeds, [getReports] returns an empty array: a new one, allocated
    by the call and holding no reference, with the cache still empty,
    every object as it was and no request sent, the function being
    synchronous. Once the cache is populated it returns the cached
    array. *)
Theorem getReports_reads_cache st :
  (reports st = None ->
   exists a st',
     getReports st = (Fulfilled a, st') /\ arrays st' !! a = Some [] /\
     arrays st !! a = None /\
     reports st' = None /\ objects st' = objects st /\
     calls st' = calls st) /\
  (forall a, reports st = Some a -> getReports st = (Fulfilled a, st)).
Proof.
  split.
  - intros Hr. rewrite (getReports_miss st Hr).
    exists (length (arrays st)), (allocArray [] st).2.
    split; [done|]. split.
    { simpl. by rewrite lookup_app_r, Nat.sub_diag. }
    split; [|done]. by apply lookup_ge_None_2.
  - intros a Hr. by apply getReports_hit.
Qed.

Lemma getReports_reads_cache_witness :
  (reports Sample.loaded = None /\
   exists a st',
     getReports Sample.loaded = (Fulfilled a, st') /\
     arrays st' !! a = Some [] /\ arrays Sample.loaded !! a = None /\
     reports st' = None /\ objects st' = objects Sample.loaded /\
     calls st' = calls Sample.loaded) /\
  (reports Sample.fetched = Some 0 /\
   getReports Sample.fetched = (Fulfilled 0, Sample.fetched)).
Proof.
  split.
  - split; [reflexivity|].
    apply (proj1 (getReports_reads_cache Sample.loaded)). reflexivity.
  - split; [vm_compute; reflexivity|].
    apply (proj2 (getReports_reads_cache Sample.fetched)).
    vm_compute; reflexivity.
Defined.

(** ** Lookups in the cache *)

Lemma find_all_false {A} (f : A -> bool) (l : list A) :
  (forall x, x ∈ l -> f x = false) -> find f l = None.
Proof.
  induction l as [|x l IH]; intros H; [done|]. simpl.
  rewrite (H x) by apply list_elem_of_here.
  apply IH. intros y Hy. apply H. by apply list_elem_of_further.
Qed.

Lemma cache_elem st a l r :
  reports st = Some a -> l ∈ items st a -> objects st !! l = Some r ->
  r ∈ cache st.
Proof.
  intros Hr Hl Ho. unfold cache. rewrite Hr.
  apply list_elem_of_omap. by exists l.
Qed.

(** No cached report satisfies [p]: the scan of the cached array finds
    nothing. *)
Lemma find_cache_none st a (p : Report.t -> bool) :
  reports st = Some a ->
  (forall r, r ∈ cache st -> p r = false) ->
  find (holds st p) (items st a) = None.
Proof.
  intros Hr H. apply find_all_false. intros l Hl. unfold holds.
  destruct (objects st !! l) as [r|] eqn:Ho; [|done].
  apply H. by eapply cache_elem.
Qed.

Lemma eqb_false_of_ne (s1 s2 : string) : s1 <> s2 -> String.eqb s1 s2 = false.
Proof. intros H. by apply String.eqb_neq. Qed.

(** ** Funding updates *)

(** C7. When no cached report has the identifier, [updateFundedAmount]
    returns normally and changes nothing of the cache: the cache
    variable, every report object with all its fields, the cached list
    and the requests sent are the same after the call; on a populated
    cache the whole state is. *)
Theorem updateFundedAmount_unknown hypercertId amount st :
  (forall r, r ∈ cache st -> Report.hypercertId r <> hypercertId) ->
  exists st',
    updateFundedAmount hypercertId amount st = (Fulfilled tt, st') /\
    reports st' = reports st /\ objects st' = objects st /\
    cache st' = cache st /\ calls st' = calls st /\
    (reports st <> None -> st' = st).
Proof.
  intros H. destruct (reports st) as [a|] eqn:Hr.
  - exists st. rewrite (updateFundedAmount_hit _ _ st a Hr).
    rewrite find_cache_none; [done..|].
    intros r Hin. apply eqb_false_of_ne. by apply H.
  - exists (allocArray [] st).2. rewrite updateFundedAmount_miss by done.
    split; [done|]. split; [done|]. split; [done|].
    split; [|done]. unfold cache. simpl. by rewrite Hr.
Qed.

Lemma updateFundedAmount_unknown_witness :
  (forall r,
     r ∈ cache Sample.fetched -> Report.hypercertId r <> "unknown-id") /\
  exists st',
    updateFundedAmount "unknown-id" 10 Sample.fetched = (Fulfilled tt, st') /\
    reports st' = reports Sample.fetched /\
    objects st' = objects Sample.fetched /\
    cache st' = cache Sample.fetched /\ calls st' = calls Sample.fetched /\
    (reports Sample.fetched <> None -> st' = Sample.fetched).
Proof.
  assert (forall r, r ∈ cache Sample.fetched ->
                    Report.hypercertId r <> "unknown-id") as H.
  { intros r Hr. vm_compute in Hr.
    repeat (apply elem_of_cons in Hr as [->|Hr]; [discriminate|]).
    by apply elem_of_nil in Hr. }
  split; [exact H|].
  exact (updateFundedAmount_unknown "unknown-id" 10 Sample.fetched H).
Defined.

Lemma holds_alter st st' (p : Report.t -> bool) (f : Report.t -> Report.t) l :
  objects st' = alter f l (objects st) ->
  (forall r, p (f r) = p r) ->
  forall l', holds st' p l' = holds st p l'.
Proof.
  intros Ho Hp l'. unfold holds. rewrite Ho.
  destruct (decide (l = l')) as [->|Hne].
  - rewrite list_lookup_alter_eq.
    destruct (objects st !! l'); [apply Hp|reflexivity].
  - by rewrite list_lookup_alter_ne.
Qed.

Lemma find_ext_all {A} (f g : A -> bool) (l : list A) :
  (forall x, f x = g x) -> find f l = find g l.
Proof.
  intros H. induction l as [|x l IH]; simpl; [done|]. by rewrite H, IH.
Qed.

(** An element with the property that no earlier element has is the one
    the scan returns. *)
Lemma find_at {A} (f : A -> bool) (l : list A) (i : nat) (x : A) :
  l !! i = Some x -> f x = true ->
  (forall j y, j < i -> l !! j = Some y -> f y = false) ->
  find f l = Some x.
Proof.
  revert i. induction l as [|z l IH]; intros i Hi Hx Hlt; [done|].
  destruct i as [|i]; simpl in *.
  - injection Hi as ->. by rewrite Hx.
  - rewrite (Hlt 0 z) by (done || lia).
    apply (IH i); [done..|].
    intros j y Hj Hy. apply (Hlt (S j)); [lia|done].
Qed.

(** C5, as the code has it. On a populated cache take a report with the
    identifier and [fundedSoFar] equal to [f], such that no reference
    earlier in the cached array is to a report with the identifier.
    Then [updateFundedAmount] with [amount] returns normally and that
    same object has [fundedSoFar] equal to [f + amount]: 75 for 50 and
    25. The update is in place: the cache variable and the arrays are
    untouched, every other object is as before, and the identifier still
    finds the same object. *)
Theorem updateFundedAmount_adds hypercertId amount st a i l r :
  reports st = Some a ->
  items st a !! i = Some l ->
  objects st !! l = Some r ->
  Report.hypercertId r = hypercertId ->
  (forall j l' r',
     j < i -> items st a !! j = Some l' -> objects st !! l' = Some r' ->
     Report.hypercertId r' <> hypercertId) ->
  exists st' r',
    updateFundedAmount hypercertId amount st = (Fulfilled tt, st') /\
    objects st' !! l = Some r' /\
    Report.fundedSoFar r' = (Report.fundedSoFar r + amount)%float /\
    (Report.fundedSoFar r = 50%float -> amount = 25%float ->
     Report.fundedSoFar r' = 75%float) /\
    r' = Report.addFunded amount r /\
    (forall l', l' <> l -> objects st' !! l' = objects st !! l') /\
    reports st' = Some a /\ arrays st' = arrays st /\
    find (holds st' (fun r => String.eqb (Report.hypercertId r) hypercertId))
         (items st' a) = Some l.
Proof.
  intros Hr Hi Ho Hid Hfirst.
  assert (find (holds st
                  (fun r => String.eqb (Report.hypercertId r) hypercertId))
               (items st a) = Some l) as Hfind.
  { apply (find_at _ _ i); [done| |].
    - unfold holds. rewrite Ho. simpl. rewrite Hid. apply String.eqb_refl.
    - intros j l' Hj Hl'. unfold holds.
      destruct (objects st !! l') as [r'|] eqn:Ho'; [simpl|done].
      apply eqb_false_of_ne. by apply (Hfirst j l'). }
  exists (addFundedAt l amount st).2, (Report.addFunded amount r).
  rewrite (updateFundedAmount_hit _ _ st a Hr), Hfind.
  split; [done|]. simpl. split.
  { rewrite list_lookup_alter_eq. by rewrite Ho. }
  split; [done|]. split.
  { intros -> ->. reflexivity. }
  split; [done|]. split.
  { intros l' Hne. by apply list_lookup_alter_ne. }
  split; [done|]. split; [done|].
  rewrite <- Hfind. apply find_ext_all. intros l'.
  by apply (holds_alter st _ _ (Report.addFunded amount) l).
Qed.

Lemma updateFundedAmount_adds_witness :
  let r := mkReport Sample.foo (Sample.metadata "Foo" None)
             (Sample.editorial "Foo" "foo-1" "100") None 50 in
  reports Sample.fetched = Some 0 /\
  items Sample.fetched 0 !! 0 = Some 1 /\
  objects Sample.fetched !! 1 = Some r /\
  Report.hypercertId r = "0xF00" /\
  exists st' r',
    updateFundedAmount "0xF00" 25 Sample.fetched = (Fulfilled tt, st') /\
    objects st' !! 1 = Some r' /\
    Report.fundedSoFar r' = (Report.fundedSoFar r + 25)%float /\
    (Report.fundedSoFar r = 50%float -> 25%float = 25%float ->
     Report.fundedSoFar r' = 75%float) /\
    r' = Report.addFunded 25 r /\
    (forall l', l' <> 1 -> objects st' !! l' = objects Sample.fetched !! l') /\
    reports st' = Some 0 /\ arrays st' = arrays Sample.fetched /\
    find (holds st' (fun r => String.eqb (Report.hypercertId r) "0xF00"))
         (items st' 0) = Some 1.
Proof.
  intros r.
  split; [vm_compute; reflexivity|]. split; [vm_compute; reflexivity|].
  split; [vm_compute; reflexivity|]. split; [reflexivity|].
  apply (updateFundedAmount_adds "0xF00" 25 Sample.fetched 0 0 1 r);
    [vm_compute; reflexivity..|].
  intros j l' r' Hj. lia.
Defined.

(** C5, as stated, fails when two cached reports have the identifier:
    against an indexer listing two claims under "0xF00", both funded with
    50, the cache holds two reports with that identifier and
    [fundedSoFar] 50; [updateFundedAmount "0xF00" 25] returns normally,
    the first of them then has 75 and the second still 50. *)
Lemma updateFundedAmount_adds_counterexample :
  let st := (fetchReports Sample.twins [] Sample.loaded).2 in
  let st' := (updateFundedAmount "0xF00" 25 st).2 in
  exists a l1 l2 r1 r2 r2',
    reports st = Some a /\ items st a = [l1; l2] /\ l1 <> l2 /\
    objects st !! l1 = Some r1 /\ objects st !! l2 = Some r2 /\
    Report.hypercertId r1 = "0xF00" /\ Report.hypercertId r2 = "0xF00" /\
    Report.fundedSoFar r1 = 50%float /\ Report.fundedSoFar r2 = 50%float /\
    (updateFundedAmount "0xF00" 25 st).1 = Fulfilled tt /\
    Report.fundedSoFar <$> objects st' !! l1 = Some 75%float /\
    objects st' !! l2 = Some r2' /\
    Report.fundedSoFar r2' = 50%float /\
    Report.fundedSoFar r2' <> 75%float.
Proof.
  intros st st'.
  exists 0, 0, 1,
    (mkReport Sample.foo (Sample.metadata "Foo" None)
       (Sample.editorial "Foo" "foo-1" "100") None 50),
    (mkReport Sample.twin
       (Sample.metadata "Bar"
          (Some [Property.mk (Some "State") (Some "Kerala")]))
       (Sample.editorial "Bar" "bar-1" "7.5") (Some "Kerala") 50),
    (mkReport Sample.twin
       (Sample.metadata "Bar"
          (Some [Property.mk (Some "State") (Some "Kerala")]))
       (Sample.editorial "Bar" "bar-1" "7.5") (Some "Kerala") 50).
  repeat (split; [by (vm_compute; reflexivity) || done|]).
  intros H.
  apply (f_equal (fun x => PrimFloat.ltb x 60%float)) in H.
  vm_compute in H. discriminate.
Qed.

(** ** Looking a report up by its slug *)

Lemma append_inj_l (s a b : string) : s ++ a = s ++ b -> a = b.
Proof. induction s as [|c s IH]; simpl; intros H; [done|]. apply IH. congruence. Qed.

Lemma slugFailure_inj slug e1 e2 :
  slugFailure slug e1 = slugFailure slug e2 -> toString e1 = toString e2.
Proof.
  unfold slugFailure. intros H. injection H as H.
  apply append_inj_l in H. by injection H.
Qed.

(** C8. In every state the module reaches with a populated cache, a slug
    that no cached report has makes [fetchReportBySlug] reject with the
    not-found error, wrapped by its own handler. That error differs from
    the configuration error and from every failure of the fetch, each
    taken as [fetchReports] raises it or as [fetchReportBySlug] wraps it.
    The state, and with it the cache, is the one before the call. *)
Theorem fetchReportBySlug_not_found R sched slug st a :
  reachable st -> reports st = Some a ->
  (forall r, r ∈ cache st -> Report.slug r <> slug) ->
  let notFound := slugFailure slug (slugNotFound slug) in
  fetchReportBySlug R sched slug st = (Rejected notFound, st) /\
  notFound <> ownerAddressNotSet /\
  notFound <> slugFailure slug ownerAddressNotSet /\
  forall error,
    notFound <> fetchFailure error /\
    notFound <> slugFailure slug (fetchFailure error).
Proof.
  intros Hreach Hr Hslug notFound. split.
  - assert (configured st) as Hc by (apply reachable_configured; congruence).
    unfold fetchReportBySlug, catch, bind.
    rewrite (fetchReports_hit R sched st a Hc Hr). unfold findReport.
    rewrite find_cache_none; [done..|].
    intros r Hin. apply eqb_false_of_ne. by apply Hslug.
  - subst notFound. split; [|split; [|intros error; split]].
    + discriminate.
    + intros H%slugFailure_inj. discriminate.
    + discriminate.
    + intros H%slugFailure_inj. discriminate.
Qed.

Lemma fetchReportBySlug_not_found_witness :
  reachable Sample.fetched /\ reports Sample.fetched = Some 0 /\
  (forall r, r ∈ cache Sample.fetched -> Report.slug r <> "nonexistent") /\
  fetchReportBySlug Sample.remote [] "nonexistent" Sample.fetched
  = (Rejected (slugFailure "nonexistent" (slugNotFound "nonexistent")),
     Sample.fetched).
Proof.
  assert (reachable Sample.fetched) as Hreach.
  { apply reach_fetchReports, reach_initial. }
  assert (forall r, r ∈ cache Sample.fetched ->
                    Report.slug r <> "nonexistent") as Hslug.
  { intros r Hr. vm_compute in Hr.
    repeat (apply elem_of_cons in Hr as [->|Hr]; [discriminate|]).
    by apply elem_of_nil in Hr. }
  split; [exact Hreach|]. split; [reflexivity|]. split; [exact Hslug|].
  exact (proj1 (fetchReportBySlug_not_found Sample.remote [] "nonexistent"
                  Sample.fetched 0 Hreach eq_refl Hslug)).
Defined.

(** ** Population *)

Lemma merge_inv R claim report :
  merge R claim = Fulfilled report ->
  exists metadata fromCMS cmsReport state funded,
    getMetadata R (Claim.uri claim) = Fulfilled metadata /\
    getCMSReports R = Fulfilled fromCMS /\
    findCMSReport fromCMS metadata = Some cmsReport /\
    stateOf metadata = Fulfilled state /\
    getFundedAmountByHCId R (Claim.id claim) = Fulfilled funded /\
    report = mkReport claim metadata cmsReport state funded.
Proof.
  unfold merge.
  destruct (getMetadata R (Claim.uri claim)) as [metadata|]; [|done].
  destruct (getCMSReports R) as [fromCMS|]; [|done].
  destruct (findCMSReport fromCMS metadata) as [cmsReport|] eqn:Hf; [|done].
  destruct (stateOf metadata) as [state|] eqn:Hs; [|done].
  destruct (getFundedAmountByHCId R (Claim.id claim)) as [funded|]; [|done].
  intros [= <-]. by exists metadata, fromCMS, cmsReport, state, funded.
Qed.

Lemma merge_hypercertId R claim report :
  merge R claim = Fulfilled report ->
  Report.hypercertId report = Claim.id claim.
Proof.
  intros (m & fromCMS & cms & s & f & _ & _ & _ & _ & _ & ->)%merge_inv.
  done.
Qed.


Lemma fetchReports_fulfilled_nonempty R sched st ownerAddress a st' :
  HC_OWNER_ADDRESS st = Some ownerAddress ->
  fetchReports R sched st = (Fulfilled a, st') -> ownerAddress <> "".
Proof.
  intros Henv Hf ->. rewrite fetchReports_unset in Hf by auto. done.
Qed.

(** Whether a population succeeds does not depend on the schedule: it
    does as soon as every claim merges. *)
Lemma fetchReports_fulfils R sched st ownerAddress claims :
  HC_OWNER_ADDRESS st = Some ownerAddress -> ownerAddress <> "" ->
  reports st = None ->
  claimsByOwner R ownerAddress = Fulfilled claims ->
  (forall c, c ∈ claims -> exists r, merge R c = Fulfilled r) ->
  exists a st', fetchReports R sched st = (Fulfilled a, st').
Proof.
  intros Henv Hne Hr Hclaims Hall.
  pose proof (fetchReports_populate R sched st ownerAddress claims
                Henv Hne Hr Hclaims) as Hpop.
  unfold populated in Hpop.
  destruct (fetchReports R sched st) as [[a|err] st']; [by eauto|].
  simpl in Hpop. destruct Hpop as (_ & _ & _ & _ & _ & c & e & Hc & Hm & _).
  destruct (Hall c Hc) as [r Hr']. congruence.
Qed.



Lemma find_elem {A} (f : A -> bool) (l : list A) (x : A) :
  x ∈ l -> f x = true -> exists y, find f l = Some y /\ y ∈ l /\ f y = true.
Proof.
  intros Hin Hx. destruct (find f l) as [y|] eqn:Hfind.
  - exists y. split; [done|]. apply find_some in Hfind as [Hy Hfy].
    split; [by apply list_elem_of_In|done].
  - apply list_elem_of_In in Hin.
    pose proof (find_none f l Hfind x Hin). congruence.
Qed.

(** C4, as the code has it. Let a claim of the indexer resolve to
    metadata named "Foo", and let the editorial list hold a record titled
    "Foo" with slug "foo-1" and total cost "100". Provided no other
    editorial record is titled "Foo" and no other claim merges into a
    report with slug "foo-1", a successful population followed by
    [fetchReportBySlug "foo-1"] returns a report whose [totalCost] is the
    number 100 and whose [hypercertId] is the identifier of that claim;
    the state stays as the population left it. *)
Theorem fetchReportBySlug_merged R R' sched sched' st ownerAddress claims claim
    metadata fromCMS cmsReport a st' :
  HC_OWNER_ADDRESS st = Some ownerAddress -> reports st = None ->
  claimsByOwner R ownerAddress = Fulfilled claims -> claim ∈ claims ->
  getMetadata R (Claim.uri claim) = Fulfilled metadata ->
  Metadata.name metadata = "Foo" ->
  getCMSReports R = Fulfilled fromCMS -> cmsReport ∈ fromCMS ->
  CMSReport.title cmsReport = "Foo" ->
  CMSReport.slug cmsReport = "foo-1" ->
  CMSReport.total_cost cmsReport = "100" ->
  (forall c, c ∈ fromCMS -> CMSReport.title c = "Foo" -> c = cmsReport) ->
  (forall c r, c ∈ claims -> merge R c = Fulfilled r ->
               Report.slug r = "foo-1" -> c = claim) ->
  fetchReports R sched st = (Fulfilled a, st') ->
  exists l report,
    fetchReportBySlug R' sched' "foo-1" st' = (Fulfilled l, st') /\
    objects st' !! l = Some report /\
    Report.totalCost report = 100%float /\
    Report.hypercertId report = Claim.id claim.
Proof.
  intros Henv Hr Hclaims Hin Hm Hname Hcms Hcin Htitle Hslug Hcost Honly
    Hsole Hf.
  pose proof (fetchReports_fulfilled_nonempty _ _ _ _ _ _ Henv Hf) as Hne.
  pose proof (fetchReports_populate R sched st ownerAddress claims
                Henv Hne Hr Hclaims) as Hpop.
  unfold populated in Hpop. rewrite Hf in Hpop. simpl in Hpop.
  destruct Hpop as (Henv' & _ & _ & _ & Hr' & ls & Ha & Hall).
  (* the report of the claim *)
  apply list_elem_of_lookup_1 in Hin as [i Hi].
  destruct (Forall2_lookup_l _ _ _ _ _ Hall Hi) as (l & Hl & r & Ho & Hmerge).
  pose proof Hmerge as Hmerge'.
  apply merge_inv in Hmerge'
    as (m & cs & c & s & f & Hm' & Hcms' & Hfind & _ & _ & Hreport).
  rewrite Hm in Hm'. injection Hm' as <-.
  rewrite Hcms in Hcms'. injection Hcms' as <-.
  apply find_some in Hfind as [Hc Hct].
  apply String.eqb_eq in Hct.
  assert (c = cmsReport) as ->.
  { apply Honly; [by apply list_elem_of_In|congruence]. }
  assert (Report.slug r = "foo-1") as Hrslug by (by subst r).
  (* the report the scan finds *)
  set (p := fun report : Report.t => String.eqb (Report.slug report) "foo-1").
  destruct (find_elem (holds st' p) ls l) as (l' & Hfound & Hl' & Hp').
  { by eapply list_elem_of_lookup_2. }
  { unfold holds. rewrite Ho. unfold p. by apply String.eqb_eq. }
  apply list_elem_of_lookup_1 in Hl' as [j Hj].
  destruct (Forall2_lookup_r _ _ _ _ _ Hall Hj)
    as (c' & Hc' & r' & Ho' & Hmerge').
  unfold holds in Hp'. rewrite Ho' in Hp'. apply String.eqb_eq in Hp'.
  assert (c' = claim) as ->.
  { eapply Hsole; [by eapply list_elem_of_lookup_2|done..]. }
  assert (r' = r) as -> by congruence.
  exists l', r. split; [|split; [done|split]].
  - assert (configured st') as Hconf.
    { exists ownerAddress. split; [congruence|done]. }
    unfold fetchReportBySlug, catch, bind.
    rewrite (fetchReports_hit R' sched' st' a Hconf Hr'). unfold findReport.
    assert (items st' a = ls) as -> by (unfold items; by rewrite Ha).
    fold p. by rewrite Hfound.
  - subst r. simpl. by rewrite Hcost.
  - by eapply merge_hypercertId.
Qed.

Lemma fetchReportBySlug_merged_witness :
  exists l report,
    fetchReportBySlug Sample.unresolved [] "foo-1" Sample.fetched
    = (Fulfilled l, Sample.fetched) /\
    objects Sample.fetched !! l = Some report /\
    Report.totalCost report = 100%float /\
    Report.hypercertId report = Claim.id Sample.foo.
Proof.
  apply (fetchReportBySlug_merged Sample.remote Sample.unresolved
           [1; 1; 0; 1] [] Sample.loaded "0x5E7" [Sample.foo; Sample.bar]
           Sample.foo (Sample.metadata "Foo" None)
           [Sample.editorial "Bar" "bar-1" "7.5";
            Sample.editorial "Foo" "foo-1" "100"]
           (Sample.editorial "Foo" "foo-1" "100") 0 Sample.fetched).
  - vm_compute; reflexivity.
  - vm_compute; reflexivity.
  - vm_compute; reflexivity.
  - apply list_elem_of_here.
  - vm_compute; reflexivity.
  - vm_compute; reflexivity.
  - vm_compute; reflexivity.
  - apply list_elem_of_further, list_elem_of_here.
  - vm_compute; reflexivity.
  - vm_compute; reflexivity.
  - vm_compute; reflexivity.
  - intros c Hc Ht.
    repeat (apply elem_of_cons in Hc as [->|Hc]; [done || discriminate|]).
    by apply elem_of_nil in Hc.
  - intros c r Hc Hmerge Hs.
    repeat (apply elem_of_cons in Hc as [->|Hc];
            [done || (vm_compute in Hmerge; injection Hmerge as <-;
                      discriminate)|]).
    by apply elem_of_nil in Hc.
  - vm_compute; reflexivity.
Defined.

(** C4, as stated, fails: two claims resolve to metadata named "Foo" and
    merge with the one editorial record, so two cached reports have slug
    "foo-1"; the lookup returns the report of the first claim, whose
    identifier is not that of the second. *)
Lemma fetchReportBySlug_merged_counterexample :
  let st' := (fetchReports Sample.namesakes [] Sample.loaded).2 in
  claimsByOwner Sample.namesakes "0x5E7" = Fulfilled [Sample.foo; Sample.bar] /\
  getMetadata Sample.namesakes (Claim.uri Sample.bar)
  = Fulfilled (Sample.metadata "Foo" None) /\
  getCMSReports Sample.namesakes
  = Fulfilled [Sample.editorial "Foo" "foo-1" "100"] /\
  fetchReports Sample.namesakes [] Sample.loaded = (Fulfilled 0, st') /\
  exists l report,
    fetchReportBySlug Sample.namesakes [] "foo-1" st' = (Fulfilled l, st') /\
    objects st' !! l = Some report /\
    Report.hypercertId report <> Claim.id Sample.bar.
Proof.
  intros st'. do 4 (split; [vm_compute; reflexivity|]).
  eexists _, _. split; [vm_compute; reflexivity|].
  split; [vm_compute; reflexivity|]. discriminate.
Qed.

(** ** Failed populations *)

(** One claim whose lookup rejects is enough: the attempt fails with the
    wrapped rejection of one of the claims and stores nothing. *)
Lemma fetchReports_rejects R sched st ownerAddress claims claim error0 :
  HC_OWNER_ADDRESS st = Some ownerAddress -> ownerAddress <> "" ->
  reports st = None ->
  claimsByOwner R ownerAddress = Fulfilled claims -> claim ∈ claims ->
  merge R claim = Rejected error0 ->
  exists claim' error st',
    fetchReports R sched st = (Rejected (fetchFailure error), st') /\
    claim' ∈ claims /\ merge R claim' = Rejected error /\
    HC_OWNER_ADDRESS st' = Some ownerAddress /\
    reports st' = None /\ cache st' = [].
Proof.
  intros Henv Hne Hr Hclaims Hin Hm.
  pose proof (fetchReports_populate R sched st ownerAddress claims
                Henv Hne Hr Hclaims) as Hpop.
  unfold populated in Hpop.
  destruct (fetchReports R sched st) as [[a|err] st']; simpl in Hpop.
  - destruct Hpop as (_ & _ & _ & _ & _ & ls & _ & Hall).
    apply list_elem_of_lookup_1 in Hin as [i Hi].
    destruct (Forall2_lookup_l _ _ _ _ _ Hall Hi) as (l & _ & r & _ & Hm').
    congruence.
  - destruct Hpop as (Henv' & _ & _ & _ & Hr' & c & e & Hc & Hme & ->).
    exists c, e, st'. repeat split; try done; [congruence|].
    unfold cache. by rewrite Hr'.
Qed.

(** With the owner address set and nothing cached, [fetchReports] asks
    the indexer, whatever it answers. *)
Lemma fetchReports_asks_indexer R sched st ownerAddress :
  HC_OWNER_ADDRESS st = Some ownerAddress -> ownerAddress <> "" ->
  reports st = None ->
  ClaimsByOwner ownerAddress :: calls st
    `suffix_of` calls (fetchReports R sched st).2.
Proof.
  intros Henv Hne Hr.
  destruct (claimsByOwner R ownerAddress) as [claims|e] eqn:Hc.
  - by destruct (fetchReports_populate R sched st ownerAddress claims)
      as (_ & _ & _ & Hcalls & _).
  - destruct (fetchReports_no_claims R sched st ownerAddress e)
      as (st' & err & Hf & _ & _ & _ & _ & Hcalls); try done.
    rewrite Hf. simpl. by rewrite Hcalls.
Qed.

Lemma findCMSReport_none fromCMS metadata :
  (forall cmsReport, cmsReport ∈ fromCMS ->
                     CMSReport.title cmsReport <> Metadata.name metadata) ->
  findCMSReport fromCMS metadata = None.
Proof.
  intros H. apply find_all_false. intros c Hc.
  apply eqb_false_of_ne. by apply H.
Qed.

(** C1, as the code has it. In a population attempt, a claim whose
    resolved metadata name is the title of no editorial record makes the
    whole operation fail: [fetchReports] rejects, the cache stays
    unpopulated with no partial list, and a following call asks the
    indexer again. What is thrown is the wrapped rejection of one of the
    claims' lookups: the content-mismatch error of that claim when every
    other claim merges, possibly the error of another claim when the
    lookup of another claim rejects as well. *)
Theorem fetchReports_unmatched_title R R2 sched sched2 st ownerAddress claims
    claim metadata fromCMS :
  HC_OWNER_ADDRESS st = Some ownerAddress -> ownerAddress <> "" ->
  reports st = None ->
  claimsByOwner R ownerAddress = Fulfilled claims -> claim ∈ claims ->
  getMetadata R (Claim.uri claim) = Fulfilled metadata ->
  getCMSReports R = Fulfilled fromCMS ->
  (forall cmsReport, cmsReport ∈ fromCMS ->
                     CMSReport.title cmsReport <> Metadata.name metadata) ->
  exists claim' error st',
    fetchReports R sched st = (Rejected (fetchFailure error), st') /\
    claim' ∈ claims /\ merge R claim' = Rejected error /\
    ((forall c, c ∈ claims ->
                (exists r, merge R c = Fulfilled r) \/ c = claim) ->
     error = contentMismatch (Metadata.name metadata)) /\
    reports st' = None /\ cache st' = [] /\
    ClaimsByOwner ownerAddress :: calls st'
      `suffix_of` calls (fetchReports R2 sched2 st').2.
Proof.
  intros Henv Hne Hr Hclaims Hin Hm Hcms Hnone.
  assert (merge R claim = Rejected (contentMismatch (Metadata.name metadata)))
    as Hmerge.
  { unfold merge. by rewrite Hm, Hcms, findCMSReport_none. }
  destruct (fetchReports_rejects R sched st ownerAddress claims claim _
              Henv Hne Hr Hclaims Hin Hmerge)
    as (c & e & st' & Hf & Hc & Hme & Henv' & Hr' & Hcache).
  exists c, e, st'. repeat split; try done.
  - intros Hothers. destruct (Hothers c Hc) as [[r Hr0]| ->]; congruence.
  - by apply fetchReports_asks_indexer.
Qed.

Lemma fetchReports_unmatched_title_witness :
  exists claim' error st',
    fetchReports Sample.unmatched [0] Sample.loaded
    = (Rejected (fetchFailure error), st') /\
    claim' ∈ [Sample.bar] /\ merge Sample.unmatched claim' = Rejected error /\
    ((forall c, c ∈ [Sample.bar] ->
                (exists r, merge Sample.unmatched c = Fulfilled r) \/
                c = Sample.bar) ->
     error = contentMismatch "Bar") /\
    reports st' = None /\ cache st' = [] /\
    ClaimsByOwner "0x5E7" :: calls st'
      `suffix_of` calls (fetchReports Sample.remote [] st').2.
Proof.
  apply (fetchReports_unmatched_title Sample.unmatched Sample.remote [0] []
           Sample.loaded "0x5E7" [Sample.bar] Sample.bar
           (Sample.metadata "Bar" None)
           [Sample.editorial "Foo" "foo-1" "100"]).
  - vm_compute; reflexivity.
  - discriminate.
  - vm_compute; reflexivity.
  - vm_compute; reflexivity.
  - apply list_elem_of_here.
  - vm_compute; reflexivity.
  - vm_compute; reflexivity.
  - intros c Hc. apply list_elem_of_singleton in Hc as ->. discriminate.
Defined.

(** C1, as stated, fails: the answers for the second claim, whose name
    is no editorial title, arrive first; then the store fails to resolve
    the first claim. [fetchReports] rejects with the wrapped metadata
    failure, which is no content-mismatch error, wrapped or not. *)
Lemma fetchReports_unmatched_title_counterexample :
  let thrown :=
    fetchFailure (metadataFailure "ipfs://foo" (Foreign "gateway timeout")) in
  claimsByOwner Sample.unresolved "0x5E7" = Fulfilled [Sample.foo; Sample.bar] /\
  getMetadata Sample.unresolved (Claim.uri Sample.bar)
  = Fulfilled (Sample.metadata "Bar" None) /\
  getCMSReports Sample.unresolved
  = Fulfilled [Sample.editorial "Foo" "foo-1" "100"] /\
  (forall cmsReport,
     cmsReport ∈ [Sample.editorial "Foo" "foo-1" "100"] ->
     CMSReport.title cmsReport <> "Bar") /\
  (fetchReports Sample.unresolved [1; 0] Sample.loaded).1 = Rejected thrown /\
  forall title,
    thrown <> fetchFailure (contentMismatch title) /\
    thrown <> contentMismatch title.
Proof.
  intros thrown. do 3 (split; [vm_compute; reflexivity|]). split.
  { intros c Hc. apply list_elem_of_singleton in Hc as ->. discriminate. }
  split; [vm_compute; reflexivity|].
  intros title. split; discriminate.
Qed.

(** ** The state property *)

Lemma stateOf_empty metadata :
  Metadata.properties metadata = Some [] ->
  stateOf metadata = Rejected (TypeError undefinedValueMessage).
Proof. unfold stateOf. by intros ->. Qed.

Lemma merge_empty_properties R claim metadata :
  getMetadata R (Claim.uri claim) = Fulfilled metadata ->
  Metadata.properties metadata = Some [] ->
  exists error, merge R claim = Rejected error.
Proof.
  intros Hm Hp. unfold merge. rewrite Hm, (stateOf_empty _ Hp).
  destruct (getCMSReports R) as [fromCMS|e]; [|by eexists].
  destruct (findCMSReport fromCMS metadata); by eexists.
Qed.

(** C10, as the code has it. In a population run where the resolved
    metadata of some claim has a properties list that is present and
    empty, extracting the state throws a [TypeError], the optional access
    guarding only against an absent list. That claim's merge thus never
    completes (it throws that error once its editorial record is found),
    [fetchReports] fails with a wrapped error and the cache stays
    unpopulated. An absent list gives an undefined state without
    throwing; a report with an undefined state comes only from metadata
    whose properties are absent or whose first property has no value. *)
Theorem fetchReports_empty_properties R sched st ownerAddress claims claim
    metadata :
  HC_OWNER_ADDRESS st = Some ownerAddress -> ownerAddress <> "" ->
  reports st = None ->
  claimsByOwner R ownerAddress = Fulfilled claims -> claim ∈ claims ->
  getMetadata R (Claim.uri claim) = Fulfilled metadata ->
  Metadata.properties metadata = Some [] ->
  stateOf metadata = Rejected (TypeError undefinedValueMessage) /\
  (forall fromCMS cmsReport,
     getCMSReports R = Fulfilled fromCMS ->
     findCMSReport fromCMS metadata = Some cmsReport ->
     merge R claim = Rejected (TypeError undefinedValueMessage)) /\
  (exists error st',
     fetchReports R sched st = (Rejected (fetchFailure error), st') /\
     reports st' = None /\ cache st' = []) /\
  (forall metadata', Metadata.properties metadata' = None ->
                     stateOf metadata' = Fulfilled None) /\
  (forall claim' report,
     merge R claim' = Fulfilled report -> Report.state report = None ->
     exists metadata',
       getMetadata R (Claim.uri claim') = Fulfilled metadata' /\
       (Metadata.properties metadata' = None \/
        exists p ps, Metadata.properties metadata' = Some (p :: ps) /\
                     Property.value p = None)).
Proof.
  intros Henv Hne Hr Hclaims Hin Hm Hp.
  split; [by apply stateOf_empty|]. split.
  { intros fromCMS cms Hc Hf. unfold merge.
    by rewrite Hm, Hc, Hf, (stateOf_empty _ Hp). }
  split.
  { destruct (merge_empty_properties R claim metadata Hm Hp) as [e0 He0].
    destruct (fetchReports_rejects R sched st ownerAddress claims claim e0
                Henv Hne Hr Hclaims Hin He0)
      as (c & e & st' & Hf & _ & _ & _ & Hr' & Hcache).
    by exists e, st'. }
  split.
  { intros m' Hm'. unfold stateOf. by rewrite Hm'. }
  intros c r (m' & fromCMS & cms & s & f & Hm' & _ & _ & Hs & _ & ->)%merge_inv
    Hstate.
  simpl in Hstate. subst s. exists m'. split; [done|].
  unfold stateOf in Hs.
  destruct (Metadata.properties m') as [[|p ps]|]; [done| |by left].
  right. exists p, ps. split; [done|]. congruence.
Qed.

Lemma fetchReports_empty_properties_witness :
  exists error st',
    fetchReports Sample.propertyless [0; 0] Sample.loaded
    = (Rejected (fetchFailure error), st') /\
    reports st' = None /\ cache st' = [].
Proof.
  apply (fetchReports_empty_properties Sample.propertyless [0; 0]
           Sample.loaded "0x5E7" [Sample.foo] Sample.foo
           (Sample.metadata "Foo" (Some []))).
  - vm_compute; reflexivity.
  - discriminate.
  - vm_compute; reflexivity.
  - vm_compute; reflexivity.
  - apply list_elem_of_here.
  - vm_compute; reflexivity.
  - vm_compute; reflexivity.
Defined.

(** C10, as stated, fails in its last part: the properties of the claim
    are present, their first entry has no value, and the population
    yields a report with an undefined state. *)
Lemma fetchReports_empty_properties_counterexample :
  exists a st' report metadata,
    fetchReports Sample.valueless [] Sample.loaded = (Fulfilled a, st') /\
    cache st' = [report] /\ Report.state report = None /\
    getMetadata Sample.valueless (Claim.uri Sample.foo) = Fulfilled metadata /\
    Metadata.properties metadata <> None.
Proof.
  eexists _, _, _, _. split; [vm_compute; reflexivity|].
  split; [vm_compute; reflexivity|]. split; [reflexivity|].
  split; [vm_compute; reflexivity|]. discriminate.
Qed.

(** * Further properties *)

(** ** Failures of [fetchReports] *)

(** A population attempt that the indexer refuses, in full. *)
Lemma fetchReports_indexer_rejects R sched st ownerAddress e :
  HC_OWNER_ADDRESS st = Some ownerAddress -> ownerAddress <> "" ->
  reports st = None ->
  claimsByOwner R ownerAddress = Rejected e ->
  fetchReports R sched st
  = (Rejected (fetchFailure (claimsFailure ownerAddress e)),
     mkState (HC_OWNER_ADDRESS st) None true (objects st) (arrays st)
             (ClaimsByOwner ownerAddress :: calls st)).
Proof.
  intros Henv Hne Hr Hc. unfold fetchReports, bind at 1, gets at 1.
  rewrite Henv. destruct ownerAddress as [|ch owner]; [done|].
  unfold catch, bind, gets, getHypercertClient, getHypercertClaims, catch,
    bind, request, await, throw.
  rewrite Hr. simpl. by rewrite Hc, Hr, Henv.
Qed.

(** X1. When the indexer rejects the claims query, [fetchReports] fails
    with that rejection wrapped twice, by [getHypercertClaims] with the
    owner address and by [fetchReports]. The claims query is the only
    request sent, the client singleton exists, and the cache, the objects
    and the arrays are as before. *)
Theorem fetchReports_indexer_failure R sched st ownerAddress e :
  HC_OWNER_ADDRESS st = Some ownerAddress -> ownerAddress <> "" ->
  reports st = None ->
  claimsByOwner R ownerAddress = Rejected e ->
  exists st',
    fetchReports R sched st
    = (Rejected (fetchFailure (claimsFailure ownerAddress e)), st') /\
    calls st' = ClaimsByOwner ownerAddress :: calls st /\
    hypercertClient st' = true /\
    reports st' = None /\ objects st' = objects st /\
    arrays st' = arrays st.
Proof.
  intros Henv Hne Hr Hc. eexists.
  split; [by apply fetchReports_indexer_rejects|done].
Qed.

Lemma fetchReports_indexer_failure_witness :
  exists st',
    fetchReports Sample.offline [0; 1] Sample.loaded
    = (Rejected (fetchFailure (claimsFailure "0x5E7" (Foreign "ECONNREFUSED"))),
       st') /\
    calls st' = ClaimsByOwner "0x5E7" :: calls Sample.loaded /\
    hypercertClient st' = true /\
    reports st' = None /\ objects st' = objects Sample.loaded /\
    arrays st' = arrays Sample.loaded.
Proof.
  apply (fetchReports_indexer_failure Sample.offline [0; 1] Sample.loaded
           "0x5E7" (Foreign "ECONNREFUSED")).
  - vm_compute; reflexivity.
  - discriminate.
  - vm_compute; reflexivity.
  - vm_compute; reflexivity.
Defined.

(** The owner address of a state: set or not. *)
Lemma configured_dec st :
  configured st \/
  (HC_OWNER_ADDRESS st = None \/ HC_OWNER_ADDRESS st = Some "").
Proof.
  destruct (HC_OWNER_ADDRESS st) as [[|ch owner]|] eqn:Henv; auto.
  left. by exists (String ch owner).
Qed.

(** X2. Every failure of [fetchReports] is one of three: the
    configuration error, unwrapped, with the state untouched; the wrapped
    failure of the claims query; or the wrapped rejection of the lookup
    of one of the claims. In each case the cache variable is what it was
    (a failed call stores nothing), the configuration is kept and no
    object or array that existed is changed. *)
Theorem fetchReports_rejected R sched st error st' :
  fetchReports R sched st = (Rejected error, st') ->
  reports st' = reports st /\
  HC_OWNER_ADDRESS st' = HC_OWNER_ADDRESS st /\
  objects st `prefix_of` objects st' /\
  arrays st `prefix_of` arrays st' /\
  ((error = ownerAddressNotSet /\ st' = st /\ ~ configured st) \/
   (exists ownerAddress e,
      HC_OWNER_ADDRESS st = Some ownerAddress /\
      claimsByOwner R ownerAddress = Rejected e /\
      error = fetchFailure (claimsFailure ownerAddress e)) \/
   (exists ownerAddress claims claim e,
      HC_OWNER_ADDRESS st = Some ownerAddress /\
      claimsByOwner R ownerAddress = Fulfilled claims /\
      claim ∈ claims /\ merge R claim = Rejected e /\
      error = fetchFailure e)).
Proof.
  intros Hf. destruct (configured_dec st) as [(owner & Henv & Hne)|Hunset].
  2: { rewrite fetchReports_unset in Hf by done. injection Hf as <- <-.
       repeat split; try done. left. repeat split; try done.
       intros (o & Ho & Hno). destruct Hunset; congruence. }
  destruct (reports st) as [a|] eqn:Hr.
  { rewrite (fetchReports_hit R sched st a) in Hf; [done| |done].
    by exists owner. }
  destruct (claimsByOwner R owner) as [claims|e] eqn:Hc.
  - pose proof (fetchReports_populate R sched st owner claims
                  Henv Hne Hr Hc) as Hpop.
    unfold populated in Hpop. rewrite Hf in Hpop. simpl in Hpop.
    destruct Hpop as (He & Ho & Ha & _ & Hr' & c & e & Hin & Hm & ->).
    repeat split; try done. right. right. by exists owner, claims, c, e.
  - rewrite (fetchReports_indexer_rejects R sched st owner e) in Hf by done.
    injection Hf as <- <-. simpl. repeat split; try done.
    right. left. by exists owner, e.
Qed.

Lemma fetchReports_rejected_witness :
  let R := Sample.unresolved in
  let st := Sample.loaded in
  let st' := (fetchReports R [1; 0] st).2 in
  let error :=
    fetchFailure (metadataFailure "ipfs://foo" (Foreign "gateway timeout")) in
  fetchReports R [1; 0] st = (Rejected error, st') /\
  reports st' = reports st /\
  HC_OWNER_ADDRESS st' = HC_OWNER_ADDRESS st /\
  objects st `prefix_of` objects st' /\
  arrays st `prefix_of` arrays st' /\
  ((error = ownerAddressNotSet /\ st' = st /\ ~ configured st) \/
   (exists ownerAddress e,
      HC_OWNER_ADDRESS st = Some ownerAddress /\
      claimsByOwner R ownerAddress = Rejected e /\
      error = fetchFailure (claimsFailure ownerAddress e)) \/
   (exists ownerAddress claims claim e,
      HC_OWNER_ADDRESS st = Some ownerAddress /\
      claimsByOwner R ownerAddress = Fulfilled claims /\
      claim ∈ claims /\ merge R claim = Rejected e /\
      error = fetchFailure e)).
Proof.
  intros R st st' error.
  assert (fetchReports R [1; 0] st = (Rejected error, st')) as Hf
    by (vm_compute; reflexivity).
  split; [exact Hf|].
  exact (fetchReports_rejected R [1; 0] st error st' Hf).
Defined.

(** X3. Whether a population succeeds does not depend on the order in
    which the answers arrive: with the claims the indexer returned, it
    succeeds exactly when the lookup of every claim succeeds, and this
    for each schedule. *)
Theorem fetchReports_outcome_fixed R sched st ownerAddress claims :
  HC_OWNER_ADDRESS st = Some ownerAddress -> ownerAddress <> "" ->
  reports st = None ->
  claimsByOwner R ownerAddress = Fulfilled claims ->
  (exists a st', fetchReports R sched st = (Fulfilled a, st')) <->
  (forall claim, claim ∈ claims -> exists r, merge R claim = Fulfilled r).
Proof.
  intros Henv Hne Hr Hc. split.
  - intros (a & st' & Hf) claim Hin.
    pose proof (fetchReports_populate R sched st ownerAddress claims
                  Henv Hne Hr Hc) as Hpop.
    unfold populated in Hpop. rewrite Hf in Hpop. simpl in Hpop.
    destruct Hpop as (_ & _ & _ & _ & _ & ls & _ & Hall).
    apply list_elem_of_lookup_1 in Hin as [i Hi].
    destruct (Forall2_lookup_l _ _ _ _ _ Hall Hi) as (l & _ & r & _ & Hm).
    by exists r.
  - intros Hall. by eapply fetchReports_fulfils.
Qed.

Lemma fetchReports_outcome_fixed_witness :
  (exists a st',
     fetchReports Sample.remote [1; 0; 0; 1; 1] Sample.loaded
     = (Fulfilled a, st')) <->
  (forall claim, claim ∈ [Sample.foo; Sample.bar] ->
                 exists r, merge Sample.remote claim = Fulfilled r).
Proof.
  apply (fetchReports_outcome_fixed Sample.remote [1; 0; 0; 1; 1]
           Sample.loaded "0x5E7" [Sample.foo; Sample.bar]).
  - vm_compute; reflexivity.
  - discriminate.
  - vm_compute; reflexivity.
  - vm_compute; reflexivity.
Defined.







(** ** The accessors *)

(** A fulfilled [fetchReports] leaves its result in the cache. *)
Lemma fetchReports_fulfilled_cached R sched st a st' :
  fetchReports R sched st = (Fulfilled a, st') -> reports st' = Some a.
Proof.
  intros Hf. destruct (configured_dec st) as [(owner & Henv & Hne)|Hunset].
  2: { rewrite fetchReports_unset in Hf by done. done. }
  destruct (reports st) as [a0|] eqn:Hr.
  { rewrite (fetchReports_hit R sched st a0) in Hf; [|by exists owner|done].
    by injection Hf as <- <-. }
  destruct (claimsByOwner R owner) as [claims|e] eqn:Hc.
  - pose proof (fetchReports_populate R sched st owner claims
                  Henv Hne Hr Hc) as Hpop.
    unfold populated in Hpop. rewrite Hf in Hpop. simpl in Hpop.
    by destruct Hpop as (_ & _ & _ & _ & Hr' & _).
  - by rewrite (fetchReports_indexer_rejects R sched st owner e) in Hf.
Qed.

(** What the scan of an array returns is its first element with the
    property. *)
Lemma find_first {A} (f : A -> bool) (l : list A) (x : A) :
  find f l = Some x ->
  exists i, l !! i = Some x /\ f x = true /\
            forall j y, j < i -> l !! j = Some y -> f y = false.
Proof.
  induction l as [|z l IH]; simpl; [done|].
  destruct (f z) eqn:Hz.
  - intros [= ->]. exists 0. split; [done|]. split; [done|]. lia.
  - intros (i & Hi & Hx & Hlt)%IH. exists (S i).
    split; [done|]. split; [done|].
    intros [|j] y Hj Hy; simpl in Hy; [congruence|]. eapply Hlt; [|done]. lia.
Qed.

(** X6. A fulfilled [fetchReportBySlug] returns a reference into the
    cached array, to a report with the requested slug, and to the first
    such report of the array; the state is the one [fetchReports] alone
    would leave. *)
Theorem fetchReportBySlug_found R sched slug st l st' :
  fetchReportBySlug R sched slug st = (Fulfilled l, st') ->
  st' = (fetchReports R sched st).2 /\
  exists a i r,
    reports st' = Some a /\ items st' a !! i = Some l /\
    objects st' !! l = Some r /\ Report.slug r = slug /\
    forall j l' r',
      j < i -> items st' a !! j = Some l' -> objects st' !! l' = Some r' ->
      Report.slug r' <> slug.
Proof.
  intros Hf. split.
  { by rewrite <- (fetchReportBySlug_state R sched slug st), Hf. }
  unfold fetchReportBySlug, catch, bind, findReport, throw, ret in Hf.
  destruct (fetchReports R sched st) as [[a|e] st1] eqn:Hfetch; [|done].
  destruct (find _ (items st1 a)) as [l1|] eqn:Hfind; [|done].
  injection Hf as -> ->.
  apply find_first in Hfind as (i & Hi & Hl & Hbefore).
  unfold holds in Hl.
  destruct (objects st' !! l) as [r|] eqn:Ho; [|done].
  apply String.eqb_eq in Hl.
  exists a, i, r. split; [by eapply fetchReports_fulfilled_cached|].
  repeat split; try done.
  intros j l' r' Hj Hl' Ho' Hs. specialize (Hbefore j l' Hj Hl').
  unfold holds in Hbefore. rewrite Ho' in Hbefore.
  apply String.eqb_neq in Hbefore. done.
Qed.

Lemma fetchReportBySlug_found_witness :
  let st' := Sample.fetched in
  fetchReportBySlug Sample.remote [] "bar-1" Sample.fetched
  = (Fulfilled 0, st') /\
  st' = (fetchReports Sample.remote [] Sample.fetched).2 /\
  exists a i r,
    reports st' = Some a /\ items st' a !! i = Some 0 /\
    objects st' !! 0 = Some r /\ Report.slug r = "bar-1" /\
    forall j l' r',
      j < i -> items st' a !! j = Some l' -> objects st' !! l' = Some r' ->
      Report.slug r' <> "bar-1".
Proof.
  intros st'.
  assert (fetchReportBySlug Sample.remote [] "bar-1" Sample.fetched
          = (Fulfilled 0, st')) as Hf by (vm_compute; reflexivity).
  split; [exact Hf|].
  exact (fetchReportBySlug_found Sample.remote [] "bar-1" Sample.fetched 0
           st' Hf).
Defined.

(** X7. A fulfilled [fetchReportByHCId] returns a reference into the
    cached array, to a report with the requested identifier, and to the
    first such report of the array; the state is the one [fetchReports]
    alone would leave. *)
Theorem fetchReportByHCId_found R sched hypercertId st l st' :
  fetchReportByHCId R sched hypercertId st = (Fulfilled l, st') ->
  st' = (fetchReports R sched st).2 /\
  exists a i r,
    reports st' = Some a /\ items st' a !! i = Some l /\
    objects st' !! l = Some r /\ Report.hypercertId r = hypercertId /\
    forall j l' r',
      j < i -> items st' a !! j = Some l' -> objects st' !! l' = Some r' ->
      Report.hypercertId r' <> hypercertId.
Proof.
  intros Hf. split.
  { by rewrite <- (fetchReportByHCId_state R sched hypercertId st), Hf. }
  unfold fetchReportByHCId, catch, bind, findReport, throw, ret in Hf.
  destruct (fetchReports R sched st) as [[a|e] st1] eqn:Hfetch; [|done].
  destruct (find _ (items st1 a)) as [l1|] eqn:Hfind; [|done].
  injection Hf as -> ->.
  apply find_first in Hfind as (i & Hi & Hl & Hbefore).
  unfold holds in Hl.
  destruct (objects st' !! l) as [r|] eqn:Ho; [|done].
  apply String.eqb_eq in Hl.
  exists a, i, r. split; [by eapply fetchReports_fulfilled_cached|].
  repeat split; try done.
  intros j l' r' Hj Hl' Ho' Hs. specialize (Hbefore j l' Hj Hl').
  unfold holds in Hbefore. rewrite Ho' in Hbefore.
  apply String.eqb_neq in Hbefore. done.
Qed.

Lemma fetchReportByHCId_found_witness :
  let st' := (fetchReports Sample.remote [0] Sample.loaded).2 in
  fetchReportByHCId Sample.remote [0] "0xBA5" Sample.loaded
  = (Fulfilled 1, st') /\
  st' = (fetchReports Sample.remote [0] Sample.loaded).2 /\
  exists a i r,
    reports st' = Some a /\ items st' a !! i = Some 1 /\
    objects st' !! 1 = Some r /\ Report.hypercertId r = "0xBA5" /\
    forall j l' r',
      j < i -> items st' a !! j = Some l' -> objects st' !! l' = Some r' ->
      Report.hypercertId r' <> "0xBA5".
Proof.
  intros st'.
  assert (fetchReportByHCId Sample.remote [0] "0xBA5" Sample.loaded
          = (Fulfilled 1, st')) as Hf by (vm_compute; reflexivity).
  split; [exact Hf|].
  exact (fetchReportByHCId_found Sample.remote [0] "0xBA5" Sample.loaded 1
           st' Hf).
Defined.

Lemma hypercertIdFailure_inj hypercertId e1 e2 :
  hypercertIdFailure hypercertId e1 = hypercertIdFailure hypercertId e2 ->
  toString e1 = toString e2.
Proof.
  unfold hypercertIdFailure. intros H. injection H as H.
  apply append_inj_l in H. by injection H.
Qed.

(** X8. In every state the module reaches with a populated cache, an
    identifier that no cached report has makes [fetchReportByHCId] reject
    with its not-found error, wrapped by its own handler, and leaves the
    state as it is. The error differs from the wrapped configuration
    error and from every wrapped failure of the fetch. *)
Theorem fetchReportByHCId_not_found R sched hypercertId st a :
  reachable st -> reports st = Some a ->
  (forall r, r ∈ cache st -> Report.hypercertId r <> hypercertId) ->
  let notFound :=
    hypercertIdFailure hypercertId (hypercertIdNotFound hypercertId) in
  fetchReportByHCId R sched hypercertId st = (Rejected notFound, st) /\
  notFound <> hypercertIdFailure hypercertId ownerAddressNotSet /\
  forall error, notFound <> hypercertIdFailure hypercertId (fetchFailure error).
Proof.
  intros Hreach Hr Hid notFound. split.
  - assert (configured st) as Hc by (apply reachable_configured; congruence).
    unfold fetchReportByHCId, catch, bind.
    rewrite (fetchReports_hit R sched st a Hc Hr). unfold findReport.
    rewrite find_cache_none; [done..|].
    intros r Hin. apply eqb_false_of_ne. by apply Hid.
  - subst notFound. split; [|intros error].
    + intros H%hypercertIdFailure_inj. discriminate.
    + intros H%hypercertIdFailure_inj. discriminate.
Qed.

Lemma fetchReportByHCId_not_found_witness :
  reachable Sample.fetched /\ reports Sample.fetched = Some 0 /\
  (forall r, r ∈ cache Sample.fetched -> Report.hypercertId r <> "0x0") /\
  fetchReportByHCId Sample.offline [] "0x0" Sample.fetched
  = (Rejected (hypercertIdFailure "0x0" (hypercertIdNotFound "0x0")),
     Sample.fetched).
Proof.
  assert (reachable Sample.fetched) as Hreach.
  { apply reach_fetchReports, reach_initial. }
  assert (forall r, r ∈ cache Sample.fetched ->
                    Report.hypercertId r <> "0x0") as Hid.
  { intros r Hr. vm_compute in Hr.
    repeat (apply elem_of_cons in Hr as [->|Hr]; [discriminate|]).
    by apply elem_of_nil in Hr. }
  split; [exact Hreach|]. split; [reflexivity|]. split; [exact Hid|].
  exact (proj1 (fetchReportByHCId_not_found Sample.offline [] "0x0"
                  Sample.fetched 0 Hreach eq_refl Hid)).
Defined.

(** X9. The accessors never let an error of [fetchReports] through as it
    is, and never swallow one: when [fetchReports] rejects, each of them
    rejects with that error wrapped in its own message and leaves the
    state [fetchReports] left. So the configuration error, which
    [fetchReports] throws unwrapped, reaches the caller of an accessor
    wrapped, with no request sent. *)
Theorem accessors_wrap_failures R sched key st error st' :
  fetchReports R sched st = (Rejected error, st') ->
  fetchReportBySlug R sched key st = (Rejected (slugFailure key error), st') /\
  fetchReportByHCId R sched key st
  = (Rejected (hypercertIdFailure key error), st') /\
  (HC_OWNER_ADDRESS st = None ->
   error = ownerAddressNotSet /\ st' = st).
Proof.
  intros Hf. unfold fetchReportBySlug, fetchReportByHCId, catch, bind.
  rewrite Hf. split; [done|]. split; [done|].
  intros Henv. rewrite fetchReports_unset in Hf by auto.
  by injection Hf as <- <-.
Qed.

Lemma accessors_wrap_failures_witness :
  fetchReportBySlug Sample.remote [] "foo-1" (initial None)
  = (Rejected (slugFailure "foo-1" ownerAddressNotSet), initial None) /\
  fetchReportByHCId Sample.remote [] "foo-1" (initial None)
  = (Rejected (hypercertIdFailure "foo-1" ownerAddressNotSet), initial None) /\
  (HC_OWNER_ADDRESS (initial None) = None ->
   ownerAddressNotSet = ownerAddressNotSet /\ initial None = initial None).
Proof.
  apply (accessors_wrap_failures Sample.remote [] "foo-1" (initial None)
           ownerAddressNotSet (initial None)).
  vm_compute; reflexivity.
Defined.



(** ** A populated cache under calls made one after the other *)

Lemma withoutFunding_addFunded amount r :
  withoutFunding (Report.addFunded amount r) = withoutFunding r.
Proof. done. Qed.

Lemma fmap_alter_same {A B} (f : A -> B) (g : A -> A) (l : list A) i :
  (forall x, f (g x) = f x) -> f <$> alter g i l = f <$> l.
Proof.
  intros H. revert i. induction l as [|x l IH]; intros [|i]; simpl; try done.
  - by rewrite H.
  - f_equal. apply IH.
Qed.

Lemma cache_withoutFunding st st' :
  reports st' = reports st -> arrays st' = arrays st ->
  withoutFunding <$> objects st' = withoutFunding <$> objects st ->
  withoutFunding <$> cache st' = withoutFunding <$> cache st.
Proof.
  intros Hr Ha Ho. unfold cache, items. rewrite Hr, Ha.
  destruct (reports st) as [a|]; [|done].
  induction (default [] (arrays st !! a)) as [|l ls IH]; simpl; [done|].
  assert (withoutFunding <$> objects st' !! l
          = withoutFunding <$> objects st !! l) as Hl.
  { by rewrite <- !list_lookup_fmap, Ho. }
  destruct (objects st' !! l), (objects st !! l); simpl in *; try done.
  f_equal; [congruence|exact IH].
Qed.

(** One call on a populated cache. *)
Lemma step_populated st st' a :
  configured st -> reports st = Some a -> step st st' ->
  configured st' /\ reports st' = Some a /\ arrays st' = arrays st /\
  withoutFunding <$> objects st' = withoutFunding <$> objects st.
Proof.
  intros Hc Hr Hstep.
  destruct Hstep as [R sched st|R sched slug st|R sched hcid st|st
                    |hcid amount st].
  - by rewrite (fetchReports_hit R sched st a Hc Hr).
  - rewrite fetchReportBySlug_state.
    by rewrite (fetchReports_hit R sched st a Hc Hr).
  - rewrite fetchReportByHCId_state.
    by rewrite (fetchReports_hit R sched st a Hc Hr).
  - by rewrite (getReports_hit st a Hr).
  - rewrite (updateFundedAmount_hit hcid amount st a Hr).
    destruct (find _ _) as [l|]; [|done]. simpl.
    repeat split; try done.
    apply fmap_alter_same. apply withoutFunding_addFunded.
Qed.

(** X11. As long as the exported functions are called one after the
    other, each call at its end before the next begins, a populated
    cache stays as it is through every sequence of such calls on a
    module with the owner address set: the cache variable holds the same
    array with the same references, and the cached reports are the same
    but for their [fundedSoFar]. Calls that overlap are outside this
    statement. *)
Theorem populated_cache_is_final st st' a :
  configured st -> reports st = Some a -> rtc step st st' ->
  configured st' /\ reports st' = Some a /\ items st' a = items st a /\
  withoutFunding <$> cache st' = withoutFunding <$> cache st.
Proof.
  intros Hc Hr Hsteps. revert Hc Hr.
  induction Hsteps as [st|st st1 st' Hstep _ IH]; intros Hc Hr; [done|].
  destruct (step_populated st st1 a Hc Hr Hstep)
    as (Hc1 & Hr1 & Ha1 & Ho1).
  destruct (IH Hc1 Hr1) as (Hc' & Hr' & Hi' & Hcache').
  split; [done|]. split; [done|]. split.
  { rewrite Hi'. unfold items. by rewrite Ha1. }
  rewrite Hcache'. apply cache_withoutFunding; congruence.
Qed.

Lemma populated_cache_is_final_witness :
  let st' :=
    (fetchReportBySlug Sample.offline [] "nope"
       (updateFundedAmount "0xF00" 25
          (fetchReports Sample.unresolved [0] Sample.fetched).2).2).2 in
  configured st' /\ reports st' = Some 0 /\
  items st' 0 = items Sample.fetched 0 /\
  withoutFunding <$> cache st' = withoutFunding <$> cache Sample.fetched.
Proof.
  intros st'.
  apply (populated_cache_is_final Sample.fetched st' 0).
  - exists "0x5E7". split; [vm_compute; reflexivity|discriminate].
  - vm_compute; reflexivity.
  - eapply rtc_l; [apply (step_fetchReports Sample.unresolved [0])|].
    eapply rtc_l; [apply (step_updateFundedAmount "0xF00" 25)|].
    eapply rtc_l; [apply (step_fetchReportBySlug Sample.offline [] "nope")|].
    apply rtc_refl.
Defined.

(** ** Funding updates compose *)

Lemma updateFundedAmount_found hypercertId amount st a l :
  reports st = Some a ->
  find (holds st (fun r => String.eqb (Report.hypercertId r) hypercertId))
       (items st a) = Some l ->
  updateFundedAmount hypercertId amount st = addFundedAt l amount st /\
  find (holds (addFundedAt l amount st).2
          (fun r => String.eqb (Report.hypercertId r) hypercertId))
       (items (addFundedAt l amount st).2 a) = Some l.
Proof.
  intros Hr Hfind. split.
  - by rewrite (updateFundedAmount_hit _ _ st a Hr), Hfind.
  - rewrite <- Hfind. apply find_ext_all. intros l'.
    by apply (holds_alter st _ _ (Report.addFunded amount) l).
Qed.

(** X12. Two updates for the same identifier add up on the same object:
    after [updateFundedAmount] with [amount1] and then with [amount2],
    the report the identifier finds has [fundedSoFar] equal to
    [(f + amount1) + amount2], where [f] was its value before; neither
    update is lost and nothing else of the report changes. *)
Theorem updateFundedAmount_accumulates hypercertId amount1 amount2 st a l r :
  reports st = Some a ->
  find (holds st (fun r => String.eqb (Report.hypercertId r) hypercertId))
       (items st a) = Some l ->
  objects st !! l = Some r ->
  exists st1 st2 r2,
    updateFundedAmount hypercertId amount1 st = (Fulfilled tt, st1) /\
    updateFundedAmount hypercertId amount2 st1 = (Fulfilled tt, st2) /\
    objects st2 !! l = Some r2 /\
    Report.fundedSoFar r2
    = (Report.fundedSoFar r + amount1 + amount2)%float /\
    withoutFunding r2 = withoutFunding r.
Proof.
  intros Hr Hfind Ho.
  destruct (updateFundedAmount_found hypercertId amount1 st a l Hr Hfind)
    as [Hu1 Hfind1].
  set (st1 := (addFundedAt l amount1 st).2) in *.
  assert (reports st1 = Some a) as Hr1 by done.
  destruct (updateFundedAmount_found hypercertId amount2 st1 a l Hr1 Hfind1)
    as [Hu2 _].
  exists st1, (addFundedAt l amount2 st1).2,
    (Report.addFunded amount2 (Report.addFunded amount1 r)).
  split; [by rewrite Hu1|]. split; [by rewrite Hu2|].
  split; [|done]. simpl.
  rewrite !list_lookup_alter_eq. by rewrite Ho.
Qed.

Lemma updateFundedAmount_accumulates_witness :
  let r := mkReport Sample.foo (Sample.metadata "Foo" None)
             (Sample.editorial "Foo" "foo-1" "100") None 50 in
  exists st1 st2 r2,
    updateFundedAmount "0xF00" 25 Sample.fetched = (Fulfilled tt, st1) /\
    updateFundedAmount "0xF00" 0.5 st1 = (Fulfilled tt, st2) /\
    objects st2 !! 1 = Some r2 /\
    Report.fundedSoFar r2 = (Report.fundedSoFar r + 25 + 0.5)%float /\
    withoutFunding r2 = withoutFunding r.
Proof.
  intros r.
  apply (updateFundedAmount_accumulates "0xF00" 25 0.5 Sample.fetched 0 1 r);
    vm_compute; reflexivity.
Defined.

(** X13. An update is seen by the next lookup: in a state the module
    reaches with a populated cache, after [updateFundedAmount] for an
    identifier that finds a report, [fetchReportByHCId] for that
    identifier returns the same object, now with the amount added to its
    [fundedSoFar], and sends no request. *)
Theorem fetchReportByHCId_after_update R sched hypercertId amount st a l r :
  reachable st -> reports st = Some a ->
  find (holds st (fun r => String.eqb (Report.hypercertId r) hypercertId))
       (items st a) = Some l ->
  objects st !! l = Some r ->
  exists st1 r1,
    updateFundedAmount hypercertId amount st = (Fulfilled tt, st1) /\
    fetchReportByHCId R sched hypercertId st1 = (Fulfilled l, st1) /\
    objects st1 !! l = Some r1 /\
    Report.fundedSoFar r1 = (Report.fundedSoFar r + amount)%float /\
    calls st1 = calls st.
Proof.
  intros Hreach Hr Hfind Ho.
  destruct (updateFundedAmount_found hypercertId amount st a l Hr Hfind)
    as [Hu Hfind1].
  set (st1 := (addFundedAt l amount st).2) in *.
  exists st1, (Report.addFunded amount r).
  split; [by rewrite Hu|]. split.
  - assert (configured st1) as Hc.
    { destruct (reachable_configured st Hreach) as (o & Ho' & Hne);
        [congruence|]. by exists o. }
    unfold fetchReportByHCId, catch, bind.
    rewrite (fetchReports_hit R sched st1 a Hc); [|done].
    unfold findReport. by rewrite Hfind1.
  - split; [|done]. simpl. rewrite list_lookup_alter_eq. by rewrite Ho.
Qed.

Lemma fetchReportByHCId_after_update_witness :
  let r := mkReport Sample.foo (Sample.metadata "Foo" None)
             (Sample.editorial "Foo" "foo-1" "100") None 50 in
  exists st1 r1,
    updateFundedAmount "0xF00" 25 Sample.fetched = (Fulfilled tt, st1) /\
    fetchReportByHCId Sample.offline [] "0xF00" st1 = (Fulfilled 1, st1) /\
    objects st1 !! 1 = Some r1 /\
    Report.fundedSoFar r1 = (Report.fundedSoFar r + 25)%float /\
    calls st1 = calls Sample.fetched.
Proof.
  intros r.
  apply (fetchReportByHCId_after_update Sample.offline [] "0xF00" 25
           Sample.fetched 0 1 r).
  - apply reach_fetchReports, reach_initial.
  - vm_compute; reflexivity.
  - vm_compute; reflexivity.
  - vm_compute; reflexivity.
Defined.

(** ** The requests of a population *)

Section Requests.

Context (R : Remote).

Lemma length_lookupCalls claims :
  length (lookupCalls claims) = 3 * length claims.
Proof.
  induction claims as [|c cs IH]; [done|].
  change (length (lookupCalls (c :: cs)))
    with (S (S (S (length (lookupCalls cs))))).
  rewrite IH. simpl. lia.
Qed.

(** A step that fulfils sends what takes the lookup from [issued] at the
    old point to [issued] at the new one. *)
Lemma deliver_issued st claim t t' st' :
  task_for R st claim t ->
  deliver R t st = (Fulfilled t', st') ->
  exists new, calls st' = (new ++ calls st)%list /\
              issued claim t' = (new ++ issued claim t)%list.
Proof.
  destruct t as [c|c m|c m cms s|l]; simpl.
  - intros ->. unfold bind, onMetadata, getHypercertMetadata, catch, await,
      bind, request, throw, ret.
    destruct (getMetadata R (Claim.uri claim)); [|done].
    intros [= <- <-]. by exists [GetCMSReports].
  - intros [-> _]. unfold bind, onCMS, bind, await, eval, request, throw, ret.
    destruct (getCMSReports R) as [fromCMS|]; [|done].
    destruct (findCMSReport fromCMS m); [|done].
    destruct (stateOf m); [|done].
    intros [= <- <-]. by exists [GetFundedAmountByHCId (Claim.id claim)].
  - intros [-> _]. unfold bind, onFunded, bind, await, allocReport, ret.
    destruct (getFundedAmountByHCId R (Claim.id claim)); [|done].
    intros [= <- <-]. by exists [].
  - intros _ [= <- <-]. by exists [].
Qed.

Lemma finish_issued st claim t l st' :
  task_for R st claim t ->
  finish R t st = (Fulfilled l, st') ->
  exists new, calls st' = (new ++ calls st)%list /\
              issued claim (Done l) = (new ++ issued claim t)%list.
Proof.
  destruct t as [c|c m|c m cms s|l0]; simpl.
  - intros ->. unfold bind, onMetadata, getHypercertMetadata, catch, await,
      bind, request, throw, ret, onCMS, bind, await, eval, request, throw,
      ret, onFunded, bind, await, allocReport.
    destruct (getMetadata R (Claim.uri claim)) as [m|]; [|done]. simpl.
    destruct (getCMSReports R) as [fromCMS|]; [|done].
    destruct (findCMSReport fromCMS m); [|done].
    destruct (stateOf m); [|done]. simpl.
    destruct (getFundedAmountByHCId R (Claim.id claim)); [|done].
    intros [= <- <-].
    by exists [GetFundedAmountByHCId (Claim.id claim); GetCMSReports].
  - intros [-> _]. unfold bind, onCMS, bind, await, eval, request, throw, ret,
      onFunded, bind, await, allocReport.
    destruct (getCMSReports R) as [fromCMS|]; [|done].
    destruct (findCMSReport fromCMS m); [|done].
    destruct (stateOf m); [|done]. simpl.
    destruct (getFundedAmountByHCId R (Claim.id claim)); [|done].
    intros [= <- <-]. by exists [GetFundedAmountByHCId (Claim.id claim)].
  - intros [-> _]. unfold onFunded, bind, await, allocReport.
    destruct (getFundedAmountByHCId R (Claim.id claim)); [|done].
    intros [= <- <-]. by exists [].
  - intros _ [= <- <-]. by exists [].
Qed.

Lemma perm_move {A} (n x i b : list A) :
  n ++ (x ++ i) ++ b ≡ₚ i ++ (n ++ x) ++ b.
Proof.
  rewrite (app_assoc n), (app_assoc i). apply Permutation_app_tail.
  rewrite (app_assoc n). apply Permutation_app_comm.
Qed.

Lemma issuedAll_insert claims tasks i claim t t' new :
  claims !! i = Some claim -> tasks !! i = Some t ->
  issued claim t' = (new ++ issued claim t)%list ->
  issuedAll claims (<[i:=t']> tasks) ≡ₚ new ++ issuedAll claims tasks.
Proof.
  unfold issuedAll. revert tasks i.
  induction claims as [|c cs IH]; intros [|t0 ts] [|i]; simpl; try done.
  - intros [= ->] [= ->] ->. by rewrite <- app_assoc.
  - intros Hc Ht Hi. rewrite (IH ts i Hc Ht Hi).
    by rewrite !app_assoc, (Permutation_app_comm new).
Qed.

Lemma drain_requests st claims tasks base ls st' :
  Forall2 (task_for R st) claims tasks ->
  calls st ≡ₚ issuedAll claims tasks ++ base ->
  drain R tasks st = (Fulfilled ls, st') ->
  calls st' ≡ₚ lookupCalls claims ++ base.
Proof.
  revert st claims base ls.
  induction tasks as [|t ts IH]; intros st claims base ls Hall Hcalls.
  - apply Forall2_nil_inv_r in Hall as ->. by intros [= <- <-].
  - apply Forall2_cons_inv_r in Hall as (c & cs & Hc & Hcs & ->).
    simpl. unfold bind at 1.
    destruct (finish_ok R st c t Hc) as [Hext _].
    destruct (finish R t st) as [[l|e] st1] eqn:Hfin; [|done].
    destruct (finish_issued st c t l st1 Hc Hfin) as (new & Hnew & Hiss).
    unfold bind at 1.
    destruct (drain R ts st1) as [[ls'|e] st2] eqn:Hdrain; [|done].
    intros [= <- <-].
    rewrite (IH st1 cs (issued c (Done l) ++ base)%list ls').
    + unfold lookupCalls. simpl. by rewrite <- !Permutation_middle.
    + by eapply Forall2_task_for_extends.
    + rewrite Hnew, Hcalls, Hiss.
      change (issuedAll (c :: cs) (t :: ts))
        with (issued c t ++ issuedAll cs ts)%list.
      apply perm_move.
    + done.
Qed.

Lemma settle_requests sched st claims tasks base ls st' :
  Forall2 (task_for R st) claims tasks ->
  calls st ≡ₚ issuedAll claims tasks ++ base ->
  settle R sched tasks st = (Fulfilled ls, st') ->
  calls st' ≡ₚ lookupCalls claims ++ base.
Proof.
  revert st tasks. induction sched as [|i sched IH];
    intros st tasks Hall Hcalls; simpl.
  - by apply drain_requests.
  - destruct (tasks !! i) as [t|] eqn:Ht; [|by apply IH].
    destruct (Forall2_lookup_r _ _ _ _ _ Hall Ht) as (c & Hc & Hct).
    unfold bind. destruct (deliver_ok R st c t Hct) as [Hext Hres].
    destruct (deliver R t st) as [[t1|e] st1] eqn:Hdel; [|done].
    destruct (deliver_issued st c t t1 st1 Hct Hdel) as (new & Hnew & Hiss).
    simpl in *. apply IH.
    + rewrite <- (list_insert_id claims i c) by done.
      apply Forall2_insert; [|done].
      by eapply Forall2_task_for_extends.
    + rewrite (issuedAll_insert claims tasks i c t t1 new Hc Ht Hiss).
      by rewrite Hnew, Hcalls, app_assoc.
Qed.

Lemma mapM_start_requests claims st tasks st' :
  mapM start claims st = (Fulfilled tasks, st') ->
  tasks = AwaitMetadata <$> claims /\
  calls st' ≡ₚ issuedAll claims tasks ++ calls st.
Proof.
  revert st tasks. induction claims as [|c cs IH]; intros st tasks; simpl.
  - by intros [= <- <-].
  - unfold bind at 1. destruct (start_ok c st) as (st1 & Hs & _ & _).
    rewrite Hs. unfold bind at 1.
    destruct (mapM start cs st1) as [[ts|e] st2] eqn:Hm; [|done].
    intros [= <- <-]. destruct (IH st1 ts Hm) as [-> Hcalls].
    split; [done|]. rewrite Hcalls. unfold issuedAll. simpl.
    injection Hs as <-. simpl. by rewrite Permutation_middle.
Qed.

(** X14. A successful population sends, whatever the order of the
    answers, exactly the claims query and for each claim one metadata
    request, one request of the whole editorial list and one funding
    request: [3 * n + 1] requests for [n] claims. *)
Theorem fetchReports_requests sched st ownerAddress claims a st' :
  HC_OWNER_ADDRESS st = Some ownerAddress -> reports st = None ->
  claimsByOwner R ownerAddress = Fulfilled claims ->
  fetchReports R sched st = (Fulfilled a, st') ->
  calls st' ≡ₚ lookupCalls claims ++ ClaimsByOwner ownerAddress :: calls st /\
  length (calls st') = 3 * length claims + 1 + length (calls st).
Proof.
  intros Henv Hr Hclaims Hf.
  pose proof (fetchReports_fulfilled_nonempty _ _ _ _ _ _ Henv Hf) as Hne.
  assert (calls st'
          ≡ₚ lookupCalls claims ++ ClaimsByOwner ownerAddress :: calls st)
    as Hperm.
  { revert Hf. unfold fetchReports, bind at 1, gets at 1. rewrite Henv.
    destruct ownerAddress as [|ch owner]; [done|].
    set (ownerAddress := String ch owner) in *.
    unfold catch, bind at 1, gets. rewrite Hr.
    unfold bind at 1, getHypercertClient.
    unfold bind at 1, getHypercertClaims, catch, bind at 1, request, await.
    simpl. rewrite Hclaims. unfold bind at 1.
    match goal with |- context [mapM _ claims ?s] => set (st0 := s) end.
    destruct (mapM start claims st0) as [[tasks|e] st1] eqn:Hm; [|done].
    destruct (mapM_start_requests claims st0 tasks st1 Hm) as [-> Hcalls1].
    unfold bind at 1.
    destruct (settle R sched (AwaitMetadata <$> claims) st1)
      as [[ls|e] st2] eqn:Hs; [|done].
    pose proof (settle_requests sched st1 claims _ (calls st0) ls st2
                  (Forall2_start R st1 claims) Hcalls1 Hs) as Hcalls2.
    simpl. intros [= _ <-]. simpl. exact Hcalls2. }
  split; [done|]. rewrite Hperm, length_app.
  rewrite length_lookupCalls. simpl. lia.
Qed.

End Requests.

Lemma fetchReports_requests_witness :
  calls Sample.fetched
  ≡ₚ lookupCalls [Sample.foo; Sample.bar]
     ++ ClaimsByOwner "0x5E7" :: calls Sample.loaded /\
  length (calls Sample.fetched)
  = 3 * length [Sample.foo; Sample.bar] + 1 + length (calls Sample.loaded).
Proof.
  apply (fetchReports_requests Sample.remote [1; 1; 0; 1] Sample.loaded
           "0x5E7" [Sample.foo; Sample.bar] 0 Sample.fetched);
    vm_compute; reflexivity.
Defined.

(** ** The objects of a population *)

Lemma allocated_perm n0 st locs locs' :
  locs ≡ₚ locs' -> allocated n0 st locs -> allocated n0 st locs'.
Proof.
  intros Hp (Hnd & Hall & Hlen). split; [by rewrite <- Hp|].
  split; [by rewrite <- Hp|]. by rewrite <- Hp.
Qed.

Lemma allocated_same n0 st st' locs :
  length (objects st') = length (objects st) ->
  allocated n0 st locs -> allocated n0 st' locs.
Proof. intros Hl (Hnd & Hall & Hlen). unfold allocated. by rewrite Hl. Qed.

Lemma allocated_new n0 st st' locs :
  length (objects st') = S (length (objects st)) ->
  allocated n0 st locs -> allocated n0 st' (length (objects st) :: locs).
Proof.
  intros Hl (Hnd & Hall & Hlen). unfold allocated. rewrite Hl.
  split; [|split].
  - apply NoDup_cons. split; [|done].
    intros Hin. rewrite Forall_forall in Hall. apply Hall in Hin. lia.
  - constructor; [lia|]. eapply Forall_impl; [done|]. simpl. lia.
  - simpl. lia.
Qed.

Section Allocation.

Context (R : Remote).

(** A step that fulfils allocates at most one object, the one a lookup
    finishes with. *)
Lemma deliver_alloc t st t' st' :
  deliver R t st = (Fulfilled t', st') ->
  (length (objects st') = length (objects st) /\ taskLoc t' = taskLoc t) \/
  (taskLoc t = None /\ taskLoc t' = Some (length (objects st)) /\
   length (objects st') = S (length (objects st))).
Proof.
  destruct t as [c|c m|c m cms s|l]; simpl.
  - unfold bind, onMetadata, getHypercertMetadata, catch, await,
      bind, request, throw, ret.
    destruct (getMetadata R (Claim.uri c)); [|done].
    intros [= <- <-]. by left.
  - unfold bind, onCMS, bind, await, eval, request, throw, ret.
    destruct (getCMSReports R) as [fromCMS|]; [|done].
    destruct (findCMSReport fromCMS m); [|done].
    destruct (stateOf m); [|done].
    intros [= <- <-]. by left.
  - unfold bind, onFunded, bind, await, allocReport, ret.
    destruct (getFundedAmountByHCId R (Claim.id c)); [|done].
    intros [= <- <-]. right. simpl. rewrite length_app. simpl.
    repeat split; lia.
  - intros [= <- <-]. by left.
Qed.

Lemma finish_alloc t st l st' :
  finish R t st = (Fulfilled l, st') ->
  (taskLoc t = Some l /\ length (objects st') = length (objects st)) \/
  (taskLoc t = None /\ l = length (objects st) /\
   length (objects st') = S (length (objects st))).
Proof.
  destruct t as [c|c m|c m cms s|l0]; simpl.
  - unfold bind, onMetadata, getHypercertMetadata, catch, await,
      bind, request, throw, ret, onCMS, bind, await, eval, request, throw,
      ret, onFunded, bind, await, allocReport.
    destruct (getMetadata R (Claim.uri c)) as [m|]; [|done]. simpl.
    destruct (getCMSReports R) as [fromCMS|]; [|done].
    destruct (findCMSReport fromCMS m); [|done].
    destruct (stateOf m); [|done]. simpl.
    destruct (getFundedAmountByHCId R (Claim.id c)); [|done].
    intros [= <- <-]. right. simpl. rewrite length_app. simpl.
    repeat split; lia.
  - unfold bind, onCMS, bind, await, eval, request, throw, ret,
      onFunded, bind, await, allocReport.
    destruct (getCMSReports R) as [fromCMS|]; [|done].
    destruct (findCMSReport fromCMS m); [|done].
    destruct (stateOf m); [|done]. simpl.
    destruct (getFundedAmountByHCId R (Claim.id c)); [|done].
    intros [= <- <-]. right. simpl. rewrite length_app. simpl.
    repeat split; lia.
  - unfold onFunded, bind, await, allocReport.
    destruct (getFundedAmountByHCId R (Claim.id c)); [|done].
    intros [= <- <-]. right. simpl. rewrite length_app. simpl.
    repeat split; lia.
  - intros [= <- <-]. by left.
Qed.

Lemma doneLocs_insert tasks i t t' :
  tasks !! i = Some t ->
  (taskLoc t' = taskLoc t -> doneLocs (<[i:=t']> tasks) = doneLocs tasks) /\
  (forall l, taskLoc t = None -> taskLoc t' = Some l ->
             doneLocs (<[i:=t']> tasks) ≡ₚ l :: doneLocs tasks).
Proof.
  unfold doneLocs. revert i.
  induction tasks as [|t0 ts IH]; intros [|i]; simpl; try done.
  - intros [= ->]. split.
    + by intros ->.
    + intros l -> ->. done.
  - intros Hi. destruct (IH i Hi) as [IH1 IH2]. split.
    + intros Heq. specialize (IH1 Heq).
      destruct (taskLoc t0); [f_equal|]; exact IH1.
    + intros l Hn Hs. specialize (IH2 l Hn Hs).
      destruct (taskLoc t0); [|exact IH2].
      etrans; [apply Permutation_skip; exact IH2|apply Permutation_swap].
Qed.

Lemma drain_alloc n0 st tasks used ls st' :
  allocated n0 st (used ++ doneLocs tasks) ->
  drain R tasks st = (Fulfilled ls, st') ->
  allocated n0 st' (used ++ ls) /\ length ls = length tasks.
Proof.
  revert st used ls. induction tasks as [|t ts IH]; intros st used ls Hinv.
  - simpl. by intros [= <- <-].
  - simpl. unfold bind at 1.
    destruct (finish R t st) as [[l|e] st1] eqn:Hfin; [|done].
    unfold bind at 1.
    destruct (drain R ts st1) as [[ls'|e] st2] eqn:Hdrain; [|done].
    intros [= <- <-].
    assert (allocated n0 st1 ((used ++ [l]) ++ doneLocs ts)) as Hinv1.
    { destruct (finish_alloc t st l st1 Hfin) as [[Ht Hl]|(Ht & -> & Hl)].
      - eapply allocated_same; [done|].
        unfold doneLocs in *. simpl in Hinv. rewrite Ht in Hinv.
        by rewrite <- app_assoc.
      - eapply allocated_perm;
          [|by apply (allocated_new n0 st st1 _ Hl Hinv)].
        unfold doneLocs. simpl. rewrite Ht. rewrite <- app_assoc. simpl.
        by rewrite Permutation_middle. }
    destruct (IH st1 (used ++ [l])%list ls' Hinv1 Hdrain) as [Hinv2 Hlen].
    split; [|simpl; by rewrite Hlen].
    by rewrite <- app_assoc in Hinv2.
Qed.

Lemma settle_alloc n0 sched st tasks ls st' :
  allocated n0 st (doneLocs tasks) ->
  settle R sched tasks st = (Fulfilled ls, st') ->
  allocated n0 st' ls /\ length ls = length tasks.
Proof.
  revert st tasks. induction sched as [|i sched IH]; intros st tasks Hinv;
    simpl.
  - by apply (drain_alloc n0 st tasks []).
  - destruct (tasks !! i) as [t|] eqn:Ht; [|by apply IH].
    unfold bind. destruct (deliver R t st) as [[t1|e] st1] eqn:Hdel; [|done].
    intros Hs. destruct (doneLocs_insert tasks i t t1 Ht) as [Hsame Hnew].
    destruct (IH st1 (<[i:=t1]> tasks)) as [Hinv' Hlen]; [|done|].
    + destruct (deliver_alloc t st t1 st1 Hdel) as [[Hl Heq]|(Hn & Hsome & Hl)].
      * rewrite (Hsame Heq). by eapply allocated_same.
      * eapply allocated_perm; [symmetry; by apply Hnew|].
        by apply allocated_new.
    + split; [done|]. by rewrite Hlen, length_insert.
Qed.

(** X15. A successful population makes one new [Report] object per
    claim and one new array: the cached references are pairwise
    different (no two positions share an object), they name exactly the
    objects allocated by this call, the objects that existed before are
    unchanged, and the cached array is a new one whose length is the
    number of claims. *)
Theorem fetchReports_allocates sched st ownerAddress claims a st' :
  HC_OWNER_ADDRESS st = Some ownerAddress -> reports st = None ->
  claimsByOwner R ownerAddress = Fulfilled claims ->
  fetchReports R sched st = (Fulfilled a, st') ->
  a = length (arrays st) /\
  arrays st' = (arrays st ++ [items st' a])%list /\
  NoDup (items st' a) /\
  length (items st' a) = length claims /\
  Forall (fun l => length (objects st) <= l < length (objects st'))
         (items st' a) /\
  length (objects st') = length (objects st) + length claims /\
  objects st `prefix_of` objects st'.
Proof.
  intros Henv Hr Hclaims Hf.
  pose proof (fetchReports_fulfilled_nonempty _ _ _ _ _ _ Henv Hf) as Hne.
  pose proof (fetchReports_populate R sched st ownerAddress claims
                Henv Hne Hr Hclaims) as Hpop.
  unfold populated in Hpop. rewrite Hf in Hpop. simpl in Hpop.
  destruct Hpop as (_ & Hprefix & _ & _ & _).
  revert Hf. unfold fetchReports, bind at 1, gets at 1. rewrite Henv.
  destruct ownerAddress as [|ch owner]; [done|].
  unfold catch, bind at 1, gets. rewrite Hr.
  unfold bind at 1, getHypercertClient.
  unfold bind at 1, getHypercertClaims, catch, bind at 1, request, await.
  simpl. rewrite Hclaims. unfold bind at 1.
  match goal with |- context [mapM _ claims ?s] => set (st0 := s) end.
  destruct (mapM_start_ok claims st0) as (st1 & Hm & Hext1 & Hobj1).
  rewrite Hm. unfold bind at 1.
  destruct (settle R sched (AwaitMetadata <$> claims) st1)
    as [[ls|e] st2] eqn:Hs; [|done].
  destruct (settle_ok R sched st1 claims _ (Forall2_start R st1 claims))
    as [Hext2 _]. rewrite Hs in Hext2. simpl in Hext2.
  assert (allocated (length (objects st)) st1
            (doneLocs (AwaitMetadata <$> claims))) as Hinv.
  { assert (doneLocs (AwaitMetadata <$> claims) = []) as ->.
    { clear. unfold doneLocs. by induction claims. }
    unfold allocated. rewrite Hobj1. simpl.
    split; [constructor|]. split; [constructor|lia]. }
  destruct (settle_alloc _ sched st1 _ ls st2 Hinv Hs)
    as [(Hnd & Hall & Hlen) Hlenls].
  rewrite length_fmap in Hlenls.
  assert (arrays st2 = arrays st) as Ha.
  { destruct Hext1 as [_ _ Ha1 _ _], Hext2 as [_ _ Ha2 _ _].
    by rewrite Ha2, Ha1. }
  simpl. intros [= <- <-]. unfold items. simpl. rewrite Ha.
  rewrite list_lookup_middle by done. simpl.
  repeat split; try done. lia.
Qed.

End Allocation.

Lemma fetchReports_allocates_witness :
  let st := Sample.loaded in
  let st' := Sample.fetched in
  0 = length (arrays st) /\
  arrays st' = (arrays st ++ [items st' 0])%list /\
  NoDup (items st' 0) /\
  length (items st' 0) = length [Sample.foo; Sample.bar] /\
  Forall (fun l => length (objects st) <= l < length (objects st'))
         (items st' 0) /\
  length (objects st') = length (objects st) + length [Sample.foo; Sample.bar] /\
  objects st `prefix_of` objects st'.
Proof.
  intros st st'.
  apply (fetchReports_allocates Sample.remote [1; 1; 0; 1] st "0x5E7"
           [Sample.foo; Sample.bar] 0 st');
    vm_compute; reflexivity.
Defined.

(** ** What an update leaves alone *)

(** X16. In every state and for every identifier and amount,
    [updateFundedAmount] returns normally, sends no request, keeps the
    configuration and the cache variable, changes at most one [Report]
    object, and of that one nothing but [fundedSoFar]. *)
Theorem updateFundedAmount_frames hypercertId amount st :
  exists st',
    updateFundedAmount hypercertId amount st = (Fulfilled tt, st') /\
    calls st' = calls st /\
    HC_OWNER_ADDRESS st' = HC_OWNER_ADDRESS st /\
    reports st' = reports st /\
    withoutFunding <$> objects st' = withoutFunding <$> objects st /\
    exists l, forall l', l' <> l -> objects st' !! l' = objects st !! l'.
Proof.
  destruct (reports st) as [a|] eqn:Hr.
  - rewrite (updateFundedAmount_hit hypercertId amount st a Hr).
    destruct (find _ _) as [l|].
    + eexists. split; [done|]. simpl. repeat split; try done.
      * apply fmap_alter_same, withoutFunding_addFunded.
      * exists l. intros l' Hne. by apply list_lookup_alter_ne.
    + exists st. repeat split; try done. by exists 0.
  - rewrite updateFundedAmount_miss by done.
    eexists. split; [done|]. simpl. repeat split; try done. by exists 0.
Qed.
